(** * Muze utilities: transactor, domain union, input sanitization and the
      canvas change listener

    A shallow embedding of the JavaScript functions
    - [checkExistence], [sanitizeIP.typeObj], [unionDomain], [arraysEqual],
      [isEqual] and [transactor] of [muze-utils/src/common-utils.js], and
    - [equalityChecker], [updateChecker] and the listener installed by
      [setupChangeListener] of the canvas helper,
    together with the properties the specification states about them; and of
    - [getExtremePoint], [getClosestIndexOf], [intSanitizer], [escapeHTML],
      [transposeArray], [unique], [getObjProp], [generateGetterSetters],
      [curry] and [getDependencyOrder] of [common-utils.js],
    with properties of their own. *)

From Stdlib Require Import ZArith Lia Permutation Ascii DecimalString DecimalNat.
From stdpp Require Import gmap strings list fin_maps.

Local Open Scope string_scope.
Local Open Scope list_scope.
Local Set Warnings "-register-all,-clear-no-such-hyp".

(** ** JavaScript values *)

(** Numbers.  Finite numbers are integers: the functions below compare
    numbers, take minima and maxima and, in one place, a difference, which is
    rounded as [to_double] tells; fractions and the sign of zero play no
    role.  [NaN] and the two infinities are kept because [Math.min] and
    [Math.max] produce them. *)
Inductive num : Type :=
| NaN
| NegInf
| Fin (z : Z)
| PosInf.

(** Values.  Arrays and objects carry the reference [ref] that gives them
    their identity: [===] and [Object.is] compare references, never contents.
    An object is described by what the code under study asks of it: the name of
    its constructor (absent for an object without prototype) and, when it has an
    [isEmpty] method, what that method answers.  Function values are not
    part of the model. *)
Inductive Value : Type :=
| VUndefined
| VNull
| VBool (b : bool)
| VNum (n : num)
| VStr (s : string)
| VArr (ref : nat) (elems : list Value)
| VObj (ref : nat) (ctor : option string) (isEmpty : option bool).

(** The ways in which an evaluation can raise a [TypeError]. *)
Inductive Fault : Type :=
| NotAnObject     (* [key in v] on a value that is not an object *)
| NullProperty    (* a property read on [undefined] or [null] *)
| NotAFunction.   (* a call of something that is not a function *)

(** The result of evaluating code that may throw. *)
Inductive Outcome (A : Type) : Type :=
| Returned (a : A)
| Thrown (e : Fault).
Arguments Returned {A} a.
Arguments Thrown {A} e.

Definition bind {A B : Type} (c : Outcome A) (k : A -> Outcome B) : Outcome B :=
  match c with
  | Returned a => k a
  | Thrown e => Thrown e
  end.

Notation "'let*' x ':=' c 'in' k" := (bind c (fun x => k))
  (at level 10, x name, c at level 100, k at level 200).

Definition num_eqb (a b : num) : bool :=
  match a, b with
  | NegInf, NegInf | PosInf, PosInf => true
  | Fin x, Fin y => Z.eqb x y
  | _, _ => false
  end.

(** Boolean coercion, as in [if (v)], [!v] and [a && b]. *)
Definition truthy (v : Value) : bool :=
  match v with
  | VUndefined | VNull => false
  | VBool b => b
  | VNum NaN => false
  | VNum (Fin z) => negb (Z.eqb z 0)
  | VNum _ => true
  | VStr s => negb (String.eqb s "")
  | VArr _ _ | VObj _ _ _ => true
  end.

(** [a === b]. *)
Definition strict_eq (a b : Value) : bool :=
  match a, b with
  | VUndefined, VUndefined | VNull, VNull => true
  | VBool x, VBool y => Bool.eqb x y
  | VNum x, VNum y => num_eqb x y
  | VStr x, VStr y => String.eqb x y
  | VArr r _, VArr r' _ => Nat.eqb r r'
  | VObj r _ _, VObj r' _ _ => Nat.eqb r r'
  | _, _ => false
  end.

(** [Object.is(a, b)]: as [===], except that [NaN] is itself. *)
Definition object_is (a b : Value) : bool :=
  match a, b with
  | VNum NaN, VNum NaN => true
  | _, _ => strict_eq a b
  end.

(** [typeof v]. *)
Definition typeOf (v : Value) : string :=
  match v with
  | VUndefined => "undefined"
  | VBool _ => "boolean"
  | VNum _ => "number"
  | VStr _ => "string"
  | VNull | VArr _ _ | VObj _ _ _ => "object"
  end.

(** Whether [v] is an object: an array or an object other than [null]. *)
Definition is_object (v : Value) : bool :=
  match v with
  | VArr _ _ | VObj _ _ _ => true
  | _ => false
  end.

(** The one-character string at index [i] of [s], if any. *)
Definition char_at (s : string) (i : nat) : Value :=
  match String.get i s with
  | Some c => VStr (String c EmptyString)
  | None => VUndefined
  end.

(** [v[i]] for a numeric index, on a value other than [undefined] and
    [null]: only arrays and strings have indexed properties. *)
Definition element (v : Value) (i : nat) : Value :=
  match v with
  | VArr _ elems => nth i elems VUndefined
  | VStr s => char_at s i
  | _ => VUndefined
  end.

(** [v[i]] on any value: it throws on [undefined] and [null]. *)
Definition index (v : Value) (i : nat) : Outcome Value :=
  match v with
  | VUndefined | VNull => Thrown NullProperty
  | _ => Returned (element v i)
  end.

(** [v.length]: [None] stands for [undefined]. *)
Definition length_of (v : Value) : Outcome (option nat) :=
  match v with
  | VUndefined | VNull => Thrown NullProperty
  | VArr _ elems => Returned (Some (length elems))
  | VStr s => Returned (Some (String.length s))
  | _ => Returned None
  end.

(** [v.constructor.name], for the built-in wrappers and for objects. *)
Definition constructor_name (v : Value) : Outcome string :=
  match v with
  | VUndefined | VNull => Thrown NullProperty
  | VBool _ => Returned "Boolean"
  | VNum _ => Returned "Number"
  | VStr _ => Returned "String"
  | VArr _ _ => Returned "Array"
  | VObj _ (Some name) _ => Returned name
  | VObj _ None _ => Thrown NullProperty
  end.

(** * Part I: the program *)

(** ** Input sanitization: [checkExistence] and [sanitizeIP.typeObj] *)

Module Sanitize.
Section WithProperties.

(** [has_property obj key] is [key in obj] for an object or an array [obj]:
    whether [key] is one of its properties, own or inherited. *)
Variable has_property : Value -> string -> bool.

(** [key in obj].  The operator throws when [obj] is not an object, and
    [null] is not one. *)
Definition key_in (key : string) (obj : Value) : Outcome bool :=
  match obj with
  | VArr _ _ | VObj _ _ _ => Returned (has_property obj key)
  | _ => Thrown NotAnObject
  end.

(** [checkExistence(keys, obj)]: [forEach] visits the keys in order and
    pushes the ones that are not in [obj]. *)
Fixpoint checkExistence (keys : list string) (obj : Value) : Outcome (list string) :=
  match keys with
  | [] => Returned []
  | key :: rest =>
      let* present := key_in key obj in
      let* nonExistentKeys := checkExistence rest obj in
      Returned (if present then nonExistentKeys else key :: nonExistentKeys)
  end.

(** What [typeObj] returns: an [Error] object with its message, or the
    argument itself. *)
Inductive Sanitized : Type :=
| ErrorValue (message : string)
| Itself (obj : Value).

(** [sanitizeIP.typeObj(keys, obj)]. *)
Definition typeObj (keys : list string) (obj : Value) : Outcome Sanitized :=
  if negb (String.eqb (typeOf obj) "object") then
    Returned (ErrorValue "Argument type object expected")
  else
    let* nonExistentKeys := checkExistence keys obj in
    if negb (Nat.eqb (length nonExistentKeys) 0) then
      Returned (ErrorValue
        ("Missing keys from parameter " +:+ String.concat ", " nonExistentKeys))
    else Returned (Itself obj).

End WithProperties.
End Sanitize.

(** ** Domains: [unionDomain] *)

Module Domain.

(** The domain [[lower, upper]] of a continuous series. *)
Definition interval (bounds : Z * Z) : list Value :=
  [VNum (Fin bounds.1); VNum (Fin bounds.2)].

Section WithEnvironment.

(** [DimensionSubtype.CATEGORICAL], declared in the [enums] module. *)
Variable CATEGORICAL : string.

(** The conversion to a number of the values that are neither numbers,
    booleans, [null] nor [undefined] (strings, arrays and objects). *)
Variable coerce : Value -> num.

(** The conversion applied by [Math.min] and [Math.max] to each argument. *)
Definition toNumber (v : Value) : num :=
  match v with
  | VUndefined => NaN
  | VNull => Fin 0
  | VBool b => Fin (if b then 1 else 0)
  | VNum n => n
  | _ => coerce v
  end.

Definition min2 (a b : num) : num :=
  match a, b with
  | NaN, _ | _, NaN => NaN
  | NegInf, _ | _, NegInf => NegInf
  | PosInf, x | x, PosInf => x
  | Fin x, Fin y => Fin (Z.min x y)
  end.

Definition max2 (a b : num) : num :=
  match a, b with
  | NaN, _ | _, NaN => NaN
  | PosInf, _ | _, PosInf => PosInf
  | NegInf, x | x, NegInf => x
  | Fin x, Fin y => Fin (Z.max x y)
  end.

(** [Math.min(...xs)]: [Infinity] without arguments, [NaN] as soon as one
    argument is [NaN]. *)
Definition math_min (xs : list num) : num := fold_right min2 PosInf xs.

(** [Math.max(...xs)]. *)
Definition math_max (xs : list num) : num := fold_right max2 NegInf xs.

(** [unionDomain(domains, fieldType)].  A domain is an array, given by its
    elements; the result is the array that is returned. *)
Definition unionDomain (domains : list (list Value)) (fieldType : string) : list Value :=
  let domains := List.filter (fun dom => negb (Nat.eqb (length dom) 0)) domains in
  if String.eqb fieldType CATEGORICAL then
    concat domains
  else
    [ VNum (math_min (map (fun d => toNumber (nth 0 d VUndefined)) domains));
      VNum (math_max (map (fun d => toNumber (nth 1 d VUndefined)) domains)) ].

End WithEnvironment.
End Domain.

(** ** The transactor: accessors generated from property descriptors *)

Module Transactor.

(** What a field of [meta] may hold: nothing, a function, a string, an array
    of such settings (one per position, for [spreadParams]), or some other
    value of which only the truthiness matters. *)
Inductive Setting (F : Type) : Type :=
| Unset
| Fn (f : F)
| Str (s : string)
| Arr (l : list (Setting F))
| Other (truth : bool).
Arguments Unset {F}.
Arguments Fn {F} f.
Arguments Str {F} s.
Arguments Arr {F} l.
Arguments Other {F} truth.

Definition setting_truthy {F : Type} (x : Setting F) : bool :=
  match x with
  | Unset => false
  | Fn _ | Arr _ => true
  | Str s => negb (String.eqb s "")
  | Other truth => truth
  end.

(** [x[i]] for a truthy setting [x]. *)
Definition setting_index {F : Type} (x : Setting F) (i : nat) : Setting F :=
  match x with
  | Arr l => nth i l Unset
  | Str s =>
      match String.get i s with
      | Some c => Str (String c EmptyString)
      | None => Unset
      end
  | _ => Unset
  end.

(** [x && (spreadParams ? x[i] : x)]. *)
Definition resolve {F : Type} (spreadParams : bool) (x : Setting F) (i : nat) : Setting F :=
  if setting_truthy x then
    if spreadParams then setting_index x i else x
  else x.

(** The [meta] of a descriptor.  A sanitization function receives the value,
    the previous value of the property and the holder, of which it can read
    the properties; a type check receives the value.  [preset] tells whether a
    preset hook is declared: its call is recorded as an event.  The hooks are
    taken as far as the accessor itself goes: what a hook would write by
    calling the setters of the holder is not part of the embedding, and the
    store and the events are those of the accessor that is called. *)
Record Meta : Type := {
  typeCheck : Setting (Value -> Value);
  typeExpected : Value;
  sanitization : Setting (Value -> Value -> gmap string Value -> Value);
  spreadParams : bool;
  preset : bool
}.

(** A property descriptor [{ value, meta }]. *)
Record Descriptor : Type := {
  value : Value;
  meta : option Meta
}.

(** What the transactor does to the outside: the call of a preset hook with
    its first argument, and the commit of a value to the store. *)
Inductive Event : Type :=
| PresetCalled (first : Value)
| Committed (key : string) (v : Value).

(** The store behind the accessors, the next unused array reference and
    the events so far.  The store is a Hyperdis model, which is not part of
    these sources; the accessors use it through [prop(key)] and
    [prop(key, value)] only, which are taken to get and to set the value of a
    single property.  The events tell what the accessor asks of the store,
    whatever the store makes of it. *)
Record World : Type := {
  store : gmap string Value;
  fresh : nat;
  trace : list Event
}.

(** [store.prop(key)]. *)
Definition prop_get (st : gmap string Value) (key : string) : Value :=
  default VUndefined (st !! key).

(** [context.prop(key, v)]. *)
Definition commit (key : string) (v : Value) (w : World) : World :=
  {| store := <[key := v]> (store w);
     fresh := fresh w;
     trace := trace w ++ [Committed key v] |}.

(** [preset && preset(first, holder)]. *)
Definition call_preset (m : Meta) (first : Value) (w : World) : World :=
  if preset m then
    {| store := store w; fresh := fresh w; trace := trace w ++ [PresetCalled first] |}
  else w.

(** [const values = []]: the new array takes the next reference. *)
Definition allocate (w : World) : nat * World :=
  (fresh w, {| store := store w; fresh := S (fresh w); trace := trace w |}).

(** The value of [val] once the sanitization of position [i] has run. *)
Definition sanitize (m : Meta) (prevVal : Value) (holder : gmap string Value)
    (i : nat) (param : Value) : Value :=
  match resolve (spreadParams m) (sanitization m) i with
  | Fn f => f param prevVal holder
  | _ => param
  end.

(** The type check of one value in the [typeCheck === 'constructor'] branch. *)
Definition check_constructor (m : Meta) (i : nat) (val : Value) : Outcome (option Value) :=
  let* typeExpected :=
    (if spreadParams m then index (typeExpected m) i else Returned (typeExpected m)) in
  if truthy val then
    let* name := constructor_name val in
    Returned (if strict_eq (VStr name) typeExpected then Some val else None)
  else Returned None.

(** The type check of one value when [typeCheck] is the function [f]. *)
Definition check_function (m : Meta) (f : Value -> Value) (i : nat) (val : Value) : option Value :=
  let typeExpected := typeExpected m in
  let typeExpected :=
    if truthy typeExpected && spreadParams m then element typeExpected i
    else typeExpected in
  let compareTo := if truthy typeExpected then typeExpected else VBool true in
  if strict_eq (f val) compareTo then Some val else None.

(** One turn of the loop over [params]: [Some val] when [val] is pushed on
    [values], [None] when the value is dropped. *)
Definition step (m : Meta) (prevVal : Value) (holder : gmap string Value)
    (i : nat) (param : Value) : Outcome (option Value) :=
  let typeCheck := resolve (spreadParams m) (typeCheck m) i in
  let val := sanitize m prevVal holder i param in
  if setting_truthy typeCheck then
    match typeCheck with
    | Fn f => Returned (check_function m f i val)
    | Str s =>
        if String.eqb s "constructor" then check_constructor m i val
        else Returned None
    | _ => Returned (Some val)
    end
  else Returned (Some val).

(** The loop over [params], from position [i] on: the array [values]. *)
Fixpoint collect (m : Meta) (prevVal : Value) (holder : gmap string Value)
    (i : nat) (params : list Value) : Outcome (list Value) :=
  match params with
  | [] => Returned []
  | param :: rest =>
      let* pushed := step m prevVal holder i param in
      let* values := collect m prevVal holder (S i) rest in
      Returned (match pushed with Some val => val :: values | None => values end)
  end.

Definition is_undefined (v : Value) : bool := strict_eq v VUndefined.

(** [oldValues.forEach((value, i) => { if (values[i] === undefined) values[i] = value; })]:
    the array [values] afterwards.  Writing one past the end extends it. *)
Fixpoint merge (values oldValues : list Value) : list Value :=
  match oldValues with
  | [] => values
  | value :: olds =>
      match values with
      | [] => value :: merge [] olds
      | v :: vs => (if is_undefined v then value else v) :: merge vs olds
      end
  end.

(** The elements over which [oldValues.forEach] runs; only arrays have the
    method. *)
Definition for_each_target (oldValues : Value) : Outcome (list Value) :=
  match oldValues with
  | VArr _ elems => Returned elems
  | VUndefined | VNull => Thrown NullProperty
  | _ => Thrown NotAFunction
  end.

(** What an accessor returns: the holder (from a setter call) or the value. *)
Inductive Reply : Type :=
| Holder
| Got (v : Value).

(** The accessor installed for the property [key] with the given [meta],
    called with [params]. *)
Definition accessor (key : string) (meta : option Meta) (params : list Value)
    (w : World) : Outcome Reply * World :=
  let prevVal := prop_get (store w) key in
  match params with
  | [] => (Returned (Got (prop_get (store w) key)), w)
  | first :: _ =>
      let '(ref, w) := allocate w in
      match meta with
      | None => (Returned Holder, commit key first w)
      | Some m =>
          match collect m prevVal (store w) 0 params with
          | Thrown e => (Thrown e, w)
          | Returned values =>
              let oldValues := prop_get (store w) key in
              let w := call_preset m (nth 0 values VUndefined) w in
              if spreadParams m then
                match for_each_target oldValues with
                | Thrown e => (Thrown e, w)
                | Returned olds =>
                    let values := merge values olds in
                    if negb (Nat.eqb (length values) 0)
                    then (Returned Holder, commit key (VArr ref values) w)
                    else (Returned Holder, w)
                end
              else
                match values with
                | [] => (Returned Holder, w)
                | v :: _ => (Returned Holder, commit key v w)
                end
          end
      end
  end.

(** [transactor(holder, options, model)], the store it returns: every
    property whose current value is falsy receives its default. *)
Definition transactor (options : list (string * Descriptor)) (model : option (gmap string Value))
    : gmap string Value :=
  fold_left
    (fun st '(prop, conf) =>
       if truthy (prop_get st prop) then st else <[prop := value conf]> st)
    options (default ∅ model).

(** [holder[prop](...params)] on the holder that [transactor] returns. *)
Definition call (options : list (string * Descriptor)) (prop : string) (params : list Value)
    (w : World) : Outcome Reply * World :=
  match list_find (fun entry => entry.1 = prop) (rev options) with
  | Some (_, (_, conf)) => accessor prop (meta conf) params w
  | None => (Thrown NotAFunction, w)
  end.

(** A type check in the style of the descriptors of the library: whether
    the value is a number. *)
Definition isNumber (v : Value) : Value :=
  VBool (match v with VNum _ => true | _ => false end).

(** [{ spreadParams: true }]. *)
Definition spread_only : Meta :=
  {| typeCheck := Unset; typeExpected := VUndefined; sanitization := Unset;
     spreadParams := true; preset := false |}.

(** [{ typeCheck: [isNumber, isNumber], spreadParams: true }]. *)
Definition spread_numbers : Meta :=
  {| typeCheck := Arr [Fn isNumber; Fn isNumber]; typeExpected := VUndefined;
     sanitization := Unset; spreadParams := true; preset := false |}.

(** [{ typeCheck: ['constructor', 'constructor'], typeExpected: ['Number', 'Number'],
       spreadParams: true, preset }]. *)
Definition spread_constructors : Meta :=
  {| typeCheck := Arr [Str "constructor"; Str "constructor"];
     typeExpected := VArr 0 [VStr "Number"; VStr "Number"];
     sanitization := Unset; spreadParams := true; preset := true |}.

(** [{ typeCheck: isNumber, preset }]. *)
Definition number_with_preset : Meta :=
  {| typeCheck := Fn isNumber; typeExpected := VUndefined; sanitization := Unset;
     spreadParams := false; preset := true |}.

(** [{ typeCheck: 'constructor', typeExpected: 'Number' }]. *)
Definition constructor_number : Meta :=
  {| typeCheck := Str "constructor"; typeExpected := VStr "Number";
     sanitization := Unset; spreadParams := false; preset := false |}.

(** [{ typeCheck: 'constructor', typeExpected: 'Number',
       sanitization: val => val || 1 }]. *)
Definition constructor_defaulting : Meta :=
  {| typeCheck := Str "constructor"; typeExpected := VStr "Number";
     sanitization := Fn (fun val _ _ => if truthy val then val else VNum (Fin 1));
     spreadParams := false; preset := false |}.

(** [{ typeCheck: ['constructor'], spreadParams: true }], without
    [typeExpected]. *)
Definition spread_unexpected : Meta :=
  {| typeCheck := Arr [Str "constructor"]; typeExpected := VUndefined;
     sanitization := Unset; spreadParams := true; preset := false |}.

(** A store in which [width] holds 100. *)
Definition width_world : World :=
  {| store := {["width" := VNum (Fin 100)]}; fresh := 0; trace := [] |}.

(** A store in which [size] holds the array [[1, 2]], of reference 0. *)
Definition size_world : World :=
  {| store := {["size" := VArr 0 [VNum (Fin 1); VNum (Fin 2)]]}; fresh := 1; trace := [] |}.

(** The options [{ size: { value: [], meta: { spreadParams: true } } }], and
    the world that [transactor] makes of them. *)
Definition size_options : list (string * Descriptor) :=
  [("size", {| value := VArr 0 []; meta := Some spread_only |})].

Definition size_initial : World :=
  {| store := transactor size_options None; fresh := 1; trace := [] |}.

(** A store in which [size] holds [null]. *)
Definition unset_world : World :=
  {| store := {["size" := VNull]}; fresh := 0; trace := [] |}.

End Transactor.

(** ** The canvas change listener *)

Module Canvas.

(** Modelled from the spec: the [constants] module that declares the names
    of the canvas properties is not among the sources; the names are the
    recognized categories the specification lists. *)
Definition ROWS : string := "rows".
Definition COLUMNS : string := "columns".
Definition DETAIL : string := "detail".
Definition SHAPE : string := "shape".
Definition SIZE : string := "size".
Definition COLOR : string := "color".
Definition DATA : string := "data".
Definition CONFIG : string := "config".

(** The body of the loop of [arraysEqual], run from index [i - 1] down to 0. *)
Fixpoint same_below (arr1 arr2 : Value) (i : nat) : Outcome bool :=
  match i with
  | O => Returned true
  | S j =>
      let* a := index arr1 j in
      let* b := index arr2 j in
      if strict_eq a b then same_below arr1 arr2 j else Returned false
  end.

(** [arraysEqual(arr1, arr2)]. *)
Definition arraysEqual (arr1 arr2 : Value) : Outcome bool :=
  let* length1 := length_of arr1 in
  let* length2 := length_of arr2 in
  match length1, length2 with
  | Some n, Some n' => if Nat.eqb n n' then same_below arr1 arr2 n else Returned false
  | None, None => Returned true
  | _, _ => Returned false
  end.

(** [isEqual(type)(oldVal, newVal)]. *)
Definition isEqual (type : string) (oldVal newVal : Value) : Outcome bool :=
  if String.eqb type "Array" then
    if negb (truthy oldVal) then Returned false else arraysEqual oldVal newVal
  else if String.eqb type "Object" then Returned (object_is oldVal newVal)
  else Returned (strict_eq oldVal newVal).

(** [l.every(f)], where [f] receives the element and its index and may
    throw: the first [false] ends the loop. *)
Fixpoint every {A : Type} (f : A -> nat -> Outcome bool) (i : nat) (l : list A) : Outcome bool :=
  match l with
  | [] => Returned true
  | x :: rest =>
      let* ok := f x i in
      if ok then every f (S i) rest else Returned false
  end.

Definition one_of (option : string) (names : list string) : bool :=
  existsb (String.eqb option) names.

(** The [switch] of [equalityChecker]: the checker chosen for [option]. *)
Definition checker_for (option : string) : Value -> Value -> Outcome bool :=
  if one_of option [ROWS; COLUMNS; DETAIL] then isEqual "Array"
  else if one_of option [SHAPE; SIZE; COLOR; DATA; CONFIG] then isEqual "Object"
  else fun _ _ => Returned true.

(** [params[i]], an [[old, new]] pair. *)
Definition pair_at (params : list (Value * Value)) (i : nat) : Outcome (Value * Value) :=
  match params !! i with
  | Some p => Returned p
  | None => Thrown NullProperty
  end.

(** [equalityChecker(props, params)]. *)
Definition equalityChecker (props : list string) (params : list (Value * Value)) : Outcome bool :=
  let* all_equal :=
    every (fun option i =>
             let checker := checker_for option in
             let* p := pair_at params i in
             checker p.1 p.2) 0 props in
  Returned (negb all_equal).

(** [val.isEmpty()] for a truthy [val]. *)
Definition call_isEmpty (val : Value) : Outcome bool :=
  match val with
  | VObj _ _ (Some empty) => Returned empty
  | VUndefined | VNull => Thrown NullProperty
  | _ => Thrown NotAFunction
  end.

(** [updateChecker(props, params)]. *)
Definition updateChecker (props : list string) (params : list (Value * Value)) : Outcome bool :=
  every (fun option i =>
           let* p := pair_at params i in
           let val := p.2 in
           if one_of option [ROWS; COLUMNS] then Returned (negb (strict_eq val VNull))
           else if one_of option [DATA] then
             if truthy val then
               let* empty := call_isEmpty val in Returned (negb empty)
             else Returned false
           else Returned true) 0 props.

(** The categories that [equalityChecker] tells apart. *)
Definition recognized (option : string) : bool :=
  one_of option [ROWS; COLUMNS; DETAIL; SHAPE; SIZE; COLOR; DATA; CONFIG].

(** The downstream work of the listener. *)
Inductive Action : Type :=
| DispatchProps
| Render.

(** The listener that [setupChangeListener] registers, for the watched
    [props]; [mounted] is the truthiness of [context.mount()]. *)
Definition changeListener (props : list string) (params : list (Value * Value))
    (mounted : bool) : Outcome (list Action) :=
  let* updateProps := equalityChecker props params in
  let* updateProps := updateChecker props params in
  if updateProps && mounted then Returned [DispatchProps; Render]
  else Returned [].

(** Whether the downstream work ran. *)
Definition ran (result : Outcome (list Action)) : bool :=
  match result with
  | Returned (_ :: _) => true
  | _ => false
  end.

(** The store delivers one pair per watched property, and what [data]
    holds, when truthy, is a data model: an object with an [isEmpty] method. *)
Definition well_formed (props : list string) (params : list (Value * Value)) : Prop :=
  forall j option, props !! j = Some option ->
    exists old new, params !! j = Some (old, new)
      /\ (option = DATA -> truthy new = true ->
          exists ref ctor empty, new = VObj ref ctor (Some empty)).

(** [setupChangeListener(context)]: the names registered with the store, in
    the namespace [ns] of the canvas, and the listener.  [allOptions] and
    [canvasOptions] are the keys of [context._allOptions] and of
    [canvasOptions]. *)
Definition setupChangeListener (ns : string) (allOptions canvasOptions : list string)
    : list string * (list (Value * Value) -> bool -> Outcome (list Action)) :=
  let props := (allOptions ++ canvasOptions)%list in
  let nameSpaceProps :=
    map (fun prop => ns +:+ "." +:+ prop) (allOptions ++ canvasOptions)%list in
  (nameSpaceProps, changeListener props).

(** Rows, columns and a data model that is not empty. *)
Definition some_rows : Value := VArr 1 [VStr "Origin"].
Definition some_columns : Value := VArr 2 [VStr "Year"].
Definition some_data : Value := VObj 3 (Some "DataModel") (Some false).

End Canvas.

(** ** Extreme points: [getExtremePoint], [getMinPoint], [getMaxPoint] *)

(** [a < b] on numbers: false as soon as one side is [NaN]. *)
Definition num_lt (a b : num) : bool :=
  match a, b with
  | NaN, _ | _, NaN => false
  | _, NegInf => false
  | NegInf, _ => true
  | PosInf, _ => false
  | Fin _, PosInf => true
  | Fin x, Fin y => Z.ltb x y
  end.

(** [a <= b] on numbers: false as soon as one side is [NaN]. *)
Definition num_le (a b : num) : bool :=
  match a, b with
  | NaN, _ | _, NaN => false
  | NegInf, _ => true
  | _, PosInf => true
  | _, NegInf => false
  | PosInf, _ => false
  | Fin x, Fin y => Z.leb x y
  end.

(** [Math.abs]. *)
Definition num_abs (a : num) : num :=
  match a with
  | NaN => NaN
  | NegInf | PosInf => PosInf
  | Fin z => Fin (Z.abs z)
  end.

(** The Number that stands for the integer [z]: a Number is a double, which
    keeps 53 significant bits.  An integer below [2 ^ 53] in absolute value is
    kept as it is; a larger one is rounded to the nearest integer that 53 bits
    and an exponent can write, to the one with an even last bit when two are
    as near, and to an infinity from [2 ^ 1024] on.  The sum and the
    difference of two Numbers are the exact ones, rounded in this way. *)
Definition to_double (z : Z) : num :=
  let a := Z.abs z in
  if (a <? 2 ^ 53)%Z then Fin z
  else
    let s := (Z.log2 a - 52)%Z in
    let q := Z.shiftr a s in
    let r := Z.land a (Z.ones s) in
    let half := (2 ^ (s - 1))%Z in
    let q := if (half <? r)%Z || ((r =? half)%Z && Z.odd q) then (q + 1)%Z else q in
    let rounded := Z.shiftl q s in
    if (2 ^ 1024 <=? rounded)%Z then (if (z <? 0)%Z then NegInf else PosInf)
    else Fin (Z.sgn z * rounded).

Module Points.
Section WithPoints.

(** The points, and the number that [point[compareValue]] is; a point
    without that property reads as [NaN], which compares as [undefined]
    does.  Values that are not numbers are not part of the model. *)
Variable Point : Type.
Variable read : Point -> num.

(** The body of the loop of [getExtremePoint], over the points that are
    left, with the current [minOrMaxVal] and [extremePoint]. *)
Fixpoint scan (minOrMax : string) (points : list Point) (minOrMaxVal : num)
    (extremePoint : option Point) : option Point :=
  match points with
  | [] => extremePoint
  | point :: rest =>
      let val := read point in
      if (if String.eqb minOrMax "min" then num_lt val minOrMaxVal
          else num_lt minOrMaxVal val)
      then scan minOrMax rest val (Some point)
      else scan minOrMax rest minOrMaxVal extremePoint
  end.

(** [getExtremePoint(points, compareValue, minOrMax)]; [None] is
    [undefined]. *)
Definition getExtremePoint (points : list Point) (minOrMax : string) : option Point :=
  scan minOrMax points (if String.eqb minOrMax "max" then NegInf else PosInf) None.

(** [getMinPoint(points, compareValue)]. *)
Definition getMinPoint (points : list Point) : option Point :=
  getExtremePoint points "min".

(** [getMaxPoint(points, compareValue)]. *)
Definition getMaxPoint (points : list Point) : option Point :=
  getExtremePoint points "max".

End WithPoints.
End Points.

(** ** Nearest value: [getClosestIndexOf] *)

Module Search.

(** [arr[i]] for an array of numbers; [None] is [undefined]. *)
Definition at_index (arr : list Z) (i : Z) : option Z :=
  if (i <? 0)%Z then None else arr !! Z.to_nat i.

(** [Math.abs(arr[i] - value)]: the difference is rounded as every result
    of Number arithmetic is; past the end of the array it is [NaN]. *)
Definition distance (arr : list Z) (i value : Z) : num :=
  match at_index arr i with
  | Some x => num_abs (to_double (x - value))
  | None => NaN
  end.

(** [d2 <= d1]. *)
Definition not_farther (d2 d1 : num) : bool := num_le d2 d1.

(** The [while (low < high)] loop, of which [fuel] bounds the number of
    turns: the value of [high] when the loop ends. *)
Fixpoint narrow (arr : list Z) (value : Z) (fuel : nat) (low high : Z) : Z :=
  match fuel with
  | O => high
  | S fuel =>
      if (low <? high)%Z then
        let mid := ((low + high) / 2)%Z in
        let d1 := distance arr mid value in
        let d2 := distance arr (mid + 1) value in
        if not_farther d2 d1 then narrow arr value fuel (mid + 1)%Z high
        else narrow arr value fuel low mid
      else high
  end.

(** [getClosestIndexOf(arr, value, side)], on an array of Numbers that are
    integers, for a [value] that is one too.  The interval between [low] and
    [high] shrinks at every turn of the loop, so that [arr.length] turns are
    enough. *)
Definition getClosestIndexOf (arr : list Z) (value : Z) (side : Value) : Z :=
  let arrLen := Z.of_nat (length arr) in
  let high := narrow arr value (length arr) 0 (arrLen - 1) in
  if negb (truthy side) then high
  else
    let highVal := at_index arr high in
    match highVal with
    | Some x =>
        if (x =? value)%Z then high
        else if (value <? x)%Z then
          if (high =? 0)%Z then high
          else if strict_eq side (VStr "left") then (high - 1)%Z else high
        else if (high =? arrLen - 1)%Z then high
        else if strict_eq side (VStr "left") then high else (high + 1)%Z
    | None =>
        if (high =? arrLen - 1)%Z then high
        else if strict_eq side (VStr "left") then high else (high + 1)%Z
    end.

(** An array of numbers in strictly ascending order. *)
Definition ascending (arr : list Z) : Prop :=
  forall i j x y, i < j -> arr !! i = Some x -> arr !! j = Some y -> (x < y)%Z.

(** An integer small enough for its difference with any other such integer
    to be computed without rounding. *)
Definition safe (z : Z) : Prop := (Z.abs z < 2 ^ 52)%Z.

End Search.

(** ** Text: [intSanitizer] and [escapeHTML] *)

Module Text.

(** [\d]: the ten decimal digits. *)
Definition is_digit (c : ascii) : bool :=
  Nat.leb 48 (nat_of_ascii c) && Nat.leb (nat_of_ascii c) 57.

Definition digit_value (c : ascii) : nat := nat_of_ascii c - 48.

(** The longest run of digits at the head of [s], and what follows it. *)
Fixpoint take_digits (s : string) : string * string :=
  match s with
  | String c rest =>
      if is_digit c then
        let '(digits, after) := take_digits rest in (String c digits, after)
      else (EmptyString, s)
  | EmptyString => (EmptyString, EmptyString)
  end.

(** The longest run of [px] at the head of [s]. *)
Fixpoint take_px (s : string) : string :=
  match s with
  | String c1 (String c2 rest) =>
      if Ascii.eqb c1 "p" && Ascii.eqb c2 "x" then String c1 (String c2 (take_px rest))
      else EmptyString
  | _ => EmptyString
  end.

(** The first match of [/(\d+)(px)*/] in [s]: the match starts at the
    first digit, and both parts are greedy. *)
Fixpoint first_match (s : string) : option string :=
  match s with
  | EmptyString => None
  | String c rest =>
      if is_digit c then
        let '(digits, after) := take_digits s in Some (digits +:+ take_px after)
      else first_match rest
  end.

(** The integer that [parseInt(t, 10)] reads in a string that starts with
    a digit: the digits up to the first other character. *)
Fixpoint read_digits (acc : Z) (t : string) : Z :=
  match t with
  | String c rest =>
      if is_digit c then read_digits (10 * acc + Z.of_nat (digit_value c)) rest else acc
  | EmptyString => acc
  end.

(** [intSanitizer(val)] for a string [val]: [parseInt] answers the Number
    that stands for the integer it reads (past twenty digits an engine may
    round the digits first). *)
Definition intSanitizer (val : string) : Value :=
  match first_match val with
  | None => VNull
  | Some matched => VNum (to_double (read_digits 0 matched))
  end.

(** The double quote character. *)
Definition double_quote : ascii := ascii_of_nat 34.

(** [htmlEscapes[match]], and the character itself when [htmlEscaper] does
    not match it. *)
Definition escape_char (c : ascii) : string :=
  if Ascii.eqb c "&" then "&amp;"
  else if Ascii.eqb c "<" then "&lt;"
  else if Ascii.eqb c ">" then "&gt;"
  else if Ascii.eqb c double_quote then "&quot;"
  else if Ascii.eqb c "'" then "&#x27;"
  else if Ascii.eqb c "/" then "&#x2F;"
  else String c EmptyString.

(** [escapeHTML(str)] for a string [str]. *)
Fixpoint escapeHTML (str : string) : string :=
  match str with
  | EmptyString => EmptyString
  | String c rest => escape_char c +:+ escapeHTML rest
  end.

(** Whether the character [c] occurs in [s]. *)
Fixpoint occurs (c : ascii) (s : string) : bool :=
  match s with
  | EmptyString => false
  | String c' rest => Ascii.eqb c c' || occurs c rest
  end.

(** A string does not start with a digit. *)
Definition no_digit_ahead (s : string) : Prop :=
  match s with
  | String c _ => is_digit c = false
  | EmptyString => True
  end.

(** The characters that [escapeHTML] replaces, the ampersand apart. *)
Definition markup : list ascii := ["<"; ">"; double_quote; "'"; "/"]%char.

End Text.

(** ** Arrays: [transposeArray] and [unique] *)

Module Arrays.

(** [transposeArray(arr)] on an array of arrays: [arr[0].map((col, i) =>
    arr.map(row => row[i]))]. *)
Definition transposeArray (arr : list (list Value)) : Outcome (list (list Value)) :=
  match arr with
  | [] => Thrown NullProperty
  | first :: _ =>
      Returned (map (fun i => map (fun row => nth i row VUndefined) arr)
                  (seq 0 (length first)))
  end.

(** Whether the set whose entries are [set], in insertion order, has
    [v]: a [Set] compares with SameValueZero, which is [Object.is] here,
    where zero has no sign. *)
Definition set_has (set : list Value) (v : Value) : bool :=
  existsb (object_is v) set.

(** [new Set(arr)]: the entries that the constructor adds after [set], in
    insertion order. *)
Fixpoint set_add_all (set : list Value) (arr : list Value) : list Value :=
  match arr with
  | [] => set
  | v :: rest => set_add_all (if set_has set v then set else set ++ [v]) rest
  end.

(** [unique(arr)]: [[...new Set(arr)]]. *)
Definition unique (arr : list Value) : list Value := set_add_all [] arr.

(** Entries that differ pairwise for the comparison of a [Set]. *)
Definition distinct (set : list Value) : Prop :=
  forall i j x y, i < j -> set !! i = Some x -> set !! j = Some y -> object_is x y = false.

End Arrays.

(** ** Paths in objects: [getObjProp] *)

Module Paths.
Section WithProperties.

(** [read obj field] is [obj[field]] for a value [obj] other than
    [undefined] and [null]. *)
Variable read : Value -> string -> Value.

Definition nullish (v : Value) : bool :=
  match v with
  | VUndefined | VNull => true
  | _ => false
  end.

(** The loop of [getObjProp] over the fields that are left. *)
Fixpoint walk (retObj : Value) (fields : list string) : Value :=
  match fields with
  | [] => retObj
  | field :: rest =>
      let retObj := read retObj field in
      if nullish retObj then retObj else walk retObj rest
  end.

(** [getObjProp(obj, ...fields)]. *)
Definition getObjProp (obj : Value) (fields : list string) : Value :=
  if nullish obj then obj else walk obj fields.

End WithProperties.
End Paths.

(** ** Generated accessors: [generateGetterSetters] *)

Module Accessors.

(** An entry of [props]: the type checker and the sanitization, when
    there are.  The sanitization receives the context, of which it reads the
    values, and the value. *)
Record PropInfo : Type := {
  typeChecker : option (Value -> Value);
  sanitization : option (gmap string Value -> Value -> Value)
}.

(** What a property of the context holds: a value, or the accessor that
    [generateGetterSetters] made for the entry [prop] of [props].  The
    accessors and the values they keep are properties of the same object. *)
Inductive Held : Type :=
| Data (v : Value)
| Accessor (prop : string) (info : PropInfo).

(** What an accessor returns: the context, or what a property holds. *)
Inductive Reply : Type :=
| Context
| Got (held : Held).

(** The name [`_${prop}`] under which the value of [prop] is kept. *)
Definition slot (prop : string) : string := "_" +:+ prop.

(** [context[name]]. *)
Definition field (context : gmap string Held) (name : string) : Held :=
  default (Data VUndefined) (context !! name).

(** The values that the context holds, as a sanitization reads them. *)
Definition values_of (context : gmap string Held) : gmap string Value :=
  omap (fun held => match held with Data v => Some v | Accessor _ _ => None end) context.

(** The function that [generateGetterSetters] assigns to [context[prop]],
    called with [params]. *)
Definition accessor (prop : string) (info : PropInfo) (params : list Value)
    (context : gmap string Held) : Reply * gmap string Held :=
  match params with
  | first :: _ =>
      let value :=
        match sanitization info with
        | Some sanitize => sanitize (values_of context) first
        | None => first
        end in
      match typeChecker info with
      | Some check =>
          if negb (truthy (check value)) then (Got (field context (slot prop)), context)
          else (Context, <[slot prop := Data value]> context)
      | None => (Context, <[slot prop := Data value]> context)
      end
  | [] => (Got (field context (slot prop)), context)
  end.

(** [generateGetterSetters(context, props)]: the context afterwards. *)
Definition generateGetterSetters (context : gmap string Held)
    (props : list (string * PropInfo)) : gmap string Held :=
  fold_left (fun context '(prop, info) => <[prop := Accessor prop info]> context)
    props context.

(** [context[name](...params)]. *)
Definition call (name : string) (params : list Value) (context : gmap string Held)
    : Outcome (Reply * gmap string Held) :=
  match field context name with
  | Accessor prop info => Returned (accessor prop info params context)
  | Data _ => Thrown NotAFunction
  end.

(** The value that a setter call tries to store, and whether the type
    checker lets it in. *)
Definition sanitized (info : PropInfo) (context : gmap string Held) (first : Value) : Value :=
  match sanitization info with
  | Some sanitize => sanitize (values_of context) first
  | None => first
  end.

Definition passes (info : PropInfo) (value : Value) : bool :=
  match typeChecker info with
  | Some check => truthy (check value)
  | None => true
  end.

End Accessors.

(** ** Currying: [curry] *)

Module Curry.
Section WithFunction.

(** The function that is curried, applied to the list of its arguments,
    and its [length]. *)
Variable fn : list Value -> Value.
Variable cardinality : nat.

(** What [interFn] returns: the result of [fn], or [interFn] itself. *)
Inductive Answer : Type :=
| Applied (result : Value)
| Again.

(** One call [interFn(...params)], with the queue before and after. *)
Definition interFn (queue params : list Value) : Answer * list Value :=
  let queue := queue ++ params in
  if Nat.leb cardinality (length queue) then (Applied (fn queue), queue)
  else (Again, queue).

(** The answers to successive calls of [interFn], the queue being [queue]
    before the first. *)
Fixpoint calls (queue : list Value) (batches : list (list Value)) : list Answer :=
  match batches with
  | [] => []
  | params :: rest =>
      let '(answer, queue) := interFn queue params in answer :: calls queue rest
  end.

End WithFunction.
End Curry.

(** ** Dependency order: [getDependencyOrder] *)

Module Dependencies.

(** A graph is an object whose keys are names and whose values are arrays
    of names: its entries, in the order of [Object.keys]. *)
Definition Graph : Type := list (string * list string).

(** The names of the properties of [Object.prototype]: an object written
    [{}] answers a truthy value for each of them. *)
Definition object_prototype : gset string :=
  list_to_set
    ["constructor"; "hasOwnProperty"; "isPrototypeOf"; "propertyIsEnumerable";
     "toLocaleString"; "toString"; "valueOf"; "__proto__"; "__defineGetter__";
     "__defineSetter__"; "__lookupGetter__"; "__lookupSetter__"].

(** [graph[name]] for a name that [visit] is called with; [None] is
    [undefined]. *)
Fixpoint edges_of (graph : Graph) (name : string) : option (list string) :=
  match graph with
  | [] => None
  | (key, edges) :: rest => if String.eqb key name then Some edges else edges_of rest name
  end.

(** How a call of [visit] ends: it returns [full], with [dependencyOrder]
    and [visited] as they then are; or it throws; or the recursion is deeper
    than the bound given to the embedding.  [visited] is the set of the names
    for which [visited[name]] is truthy. *)
Inductive Visit : Type :=
| Finished (full : bool) (order : list string) (visited : gset string)
| Failed (e : Fault)
| Exhausted.

(** The loop of [visit] over the edges of a name; [visit1] is the function
    that a recursive call runs. *)
Fixpoint explore (visit1 : string -> list string -> gset string -> Visit)
    (edges : list string) (order : list string) (visited : gset string) : Visit :=
  match edges with
  | [] => Finished false order visited
  | dep :: rest =>
      if decide (dep ∈ visited) then explore visit1 rest order visited
      else
        match visit1 dep order visited with
        | Finished _ order visited => explore visit1 rest order visited
        | other => other
        end
  end.

(** [visit(name)], with at most [fuel] nested calls. *)
Fixpoint visit (graph : Graph) (fuel : nat) (name : string) (order : list string)
    (visited : gset string) : Visit :=
  match fuel with
  | O => Exhausted
  | S fuel =>
      if Nat.eqb (length order) (length graph) then Finished true order visited
      else
        let visited := {[name]} ∪ visited in
        match edges_of graph name with
        | None => Failed NullProperty
        | Some edges =>
            match explore (visit graph fuel) edges order visited with
            | Finished _ order visited => Finished false (order ++ [name]) visited
            | other => other
            end
        end
  end.

(** The loop of [getDependencyOrder] over the keys that are left. *)
Fixpoint run (graph : Graph) (fuel : nat) (keys : list string) (order : list string)
    (visited : gset string) : Visit :=
  match keys with
  | [] => Finished false order visited
  | key :: rest =>
      match visit graph fuel key order visited with
      | Finished true order visited => Finished true order visited
      | Finished false order visited => run graph fuel rest order visited
      | other => other
      end
  end.

(** A nested call of [visit] is for a name that was not visited, so that
    the calls are never nested deeper than there are names in the graph, plus
    one for the call of the loop. *)
Definition enough (graph : Graph) : nat :=
  S (length (map fst graph ++ concat (map snd graph))).

(** [getDependencyOrder(graph)]; [None] would be a recursion deeper than
    [enough graph], which does not happen.  [visited] starts as [{}]: no
    name was visited, and yet [visited[name]] is truthy already for the names
    [inherited] of the properties that an object inherits, those of
    [object_prototype] and what the page may have added to them. *)
Definition getDependencyOrder (inherited : gset string) (graph : Graph)
    : option (Outcome (list string)) :=
  match run graph (enough graph) (map fst graph) [] inherited with
  | Finished _ order _ => Some (Returned order)
  | Failed e => Some (Thrown e)
  | Exhausted => None
  end.

(** The names of a graph: its keys and the names on its edges. *)
Definition names (graph : Graph) : gset string :=
  list_to_set (map fst graph ++ concat (map snd graph)).

(** What a call started with [order] and [visited] may end with: the
    order is continued at its end by keys of the graph, and the visited names
    are more. *)
Definition continues (graph : Graph) (order : list string) (visited : gset string)
    (result : Visit) : Prop :=
  match result with
  | Finished _ order' visited' =>
      (exists more, order' = order ++ more /\ forall name, In name more -> In name (map fst graph))
      /\ visited ⊆ visited'
  | Failed _ => True
  | Exhausted => False
  end.

(** The keys are in dependency order: the edges of every key name keys
    that come before it. *)
Definition in_order (graph : Graph) : Prop :=
  forall before key edges after,
    graph = before ++ (key, edges) :: after ->
    forall dep, In dep edges -> In dep (map fst before).

End Dependencies.

(** * Part II: properties *)

(** ** Input sanitization *)

Section SanitizeProperties.

Variable has_property : Value -> string -> bool.

Local Abbreviation key_in := (Sanitize.key_in has_property).
Local Abbreviation checkExistence := (Sanitize.checkExistence has_property).
Local Abbreviation typeObj := (Sanitize.typeObj has_property).

(** On an object, [checkExistence] returns exactly the keys that are not
    in it, in the order of [keys]. *)
Lemma checkExistence_object (keys : list string) (obj : Value) :
  is_object obj = true ->
  checkExistence keys obj
  = Returned (List.filter (fun key => negb (has_property obj key)) keys).
Proof.
  intros Hobj. induction keys as [|key rest IH]; simpl; [reflexivity|].
  rewrite IH.
  destruct obj; try discriminate; simpl; destruct (has_property _ key); reflexivity.
Qed.

(** An argument whose [typeof] is not ['object'] is answered with an
    [Error] value. *)
Lemma typeObj_not_object (keys : list string) (obj : Value) :
  typeOf obj <> "object" ->
  typeObj keys obj = Returned (Sanitize.ErrorValue "Argument type object expected").
Proof.
  intros Hty. unfold Sanitize.typeObj.
  destruct (String.eqb_spec (typeOf obj) "object"); [contradiction | reflexivity].
Qed.

(** On an object, [typeObj] never throws: it returns the object itself
    when no key is missing, and otherwise an [Error] value whose message lists
    the missing keys. *)
Lemma typeObj_object (keys : list string) (obj : Value) :
  is_object obj = true ->
  typeObj keys obj
  = Returned
      (match List.filter (fun key => negb (has_property obj key)) keys with
       | [] => Sanitize.Itself obj
       | missing =>
           Sanitize.ErrorValue ("Missing keys from parameter " +:+ String.concat ", " missing)
       end).
Proof.
  intros Hobj. unfold Sanitize.typeObj.
  rewrite (checkExistence_object keys obj Hobj).
  destruct obj; try discriminate; simpl;
    destruct (List.filter _ keys); reflexivity.
Qed.

(** C9, at the inputs where the code departs from it: [null] passes the
    [typeof obj !== 'object'] guard of [typeObj], and the first required key
    then makes [key in null] throw, in [checkExistence] and so in [typeObj];
    no [Error] value is returned. *)
Theorem typeObj_null_throws (key : string) (keys : list string) :
  typeOf VNull = "object"
  /\ checkExistence (key :: keys) VNull = Thrown NotAnObject
  /\ typeObj (key :: keys) VNull = Thrown NotAnObject.
Proof. repeat split. Qed.

End SanitizeProperties.

(** [sanitizeIP.typeObj(['a'], null)] throws. *)
Example typeObj_a_null :
  Sanitize.typeObj (fun _ _ => false) ["a"] VNull = Thrown NotAnObject.
Proof. reflexivity. Qed.

(** [sanitizeIP.typeObj(['a', 'b', 'c'], obj)] for an object that has only
    the key ['b']. *)
Example typeObj_missing_keys :
  let has (obj : Value) (key : string) := String.eqb key "b" in
  Sanitize.typeObj has ["a"; "b"; "c"] (VObj 0 (Some "Object") None)
  = Returned (Sanitize.ErrorValue "Missing keys from parameter a, c").
Proof. reflexivity. Qed.

(** ** Domains *)

Section DomainProperties.

Variable CATEGORICAL : string.
Variable coerce : Value -> num.

Import Domain.

Local Abbreviation unionDomain := (Domain.unionDomain CATEGORICAL coerce).
Local Abbreviation toNumber := (Domain.toNumber coerce).

Lemma min2_comm (a b : num) : min2 a b = min2 b a.
Proof. destruct a, b; simpl; try reflexivity; f_equal; lia. Qed.

Lemma min2_assoc (a b c : num) : min2 a (min2 b c) = min2 (min2 a b) c.
Proof. destruct a, b, c; simpl; try reflexivity; f_equal; lia. Qed.

Lemma max2_comm (a b : num) : max2 a b = max2 b a.
Proof. destruct a, b; simpl; try reflexivity; f_equal; lia. Qed.

Lemma max2_assoc (a b c : num) : max2 a (max2 b c) = max2 (max2 a b) c.
Proof. destruct a, b, c; simpl; try reflexivity; f_equal; lia. Qed.

(** [Math.min] and [Math.max] do not depend on the order of their
    arguments. *)
Lemma math_min_Permutation (xs ys : list num) :
  Permutation xs ys -> math_min xs = math_min ys.
Proof.
  unfold math_min. induction 1 as [|x xs ys _ IH|x y xs|xs ys zs _ IH1 _ IH2]; simpl.
  - reflexivity.
  - now rewrite IH.
  - rewrite !min2_assoc. now rewrite (min2_comm y x).
  - congruence.
Qed.

Lemma math_max_Permutation (xs ys : list num) :
  Permutation xs ys -> math_max xs = math_max ys.
Proof.
  unfold math_max. induction 1 as [|x xs ys _ IH|x y xs|xs ys zs _ IH1 _ IH2]; simpl.
  - reflexivity.
  - now rewrite IH.
  - rewrite !max2_assoc. now rewrite (max2_comm y x).
  - congruence.
Qed.

(** On finite numbers, at least one of them, [Math.min] is the least. *)
Lemma math_min_finite (z : Z) (zs : list Z) :
  exists m, math_min (map Fin (z :: zs)) = Fin m
            /\ In m (z :: zs) /\ forall x, In x (z :: zs) -> (m <= x)%Z.
Proof.
  revert z. induction zs as [|y ys IH]; intros z.
  - exists z. simpl. repeat split; [now left | intros x [<-|[]]; lia].
  - destruct (IH y) as (m & Hm & Hin & Hle).
    change (math_min (map Fin (z :: y :: ys)))
      with (min2 (Fin z) (math_min (map Fin (y :: ys)))).
    rewrite Hm. simpl min2.
    destruct (Z.min_spec z m) as [[Hlt ->]|[Hge ->]].
    + exists z. repeat split; [now left|].
      intros x [<-|Hx]; [lia|]. specialize (Hle x Hx). lia.
    + exists m. repeat split; [now right|].
      intros x [<-|Hx]; [lia|]. now apply Hle.
Qed.

(** On finite numbers, at least one of them, [Math.max] is the greatest. *)
Lemma math_max_finite (z : Z) (zs : list Z) :
  exists m, math_max (map Fin (z :: zs)) = Fin m
            /\ In m (z :: zs) /\ forall x, In x (z :: zs) -> (x <= m)%Z.
Proof.
  revert z. induction zs as [|y ys IH]; intros z.
  - exists z. simpl. repeat split; [now left | intros x [<-|[]]; lia].
  - destruct (IH y) as (m & Hm & Hin & Hle).
    change (math_max (map Fin (z :: y :: ys)))
      with (max2 (Fin z) (math_max (map Fin (y :: ys)))).
    rewrite Hm. simpl max2.
    destruct (Z.max_spec z m) as [[Hlt ->]|[Hge ->]].
    + exists m. repeat split; [now right|].
      intros x [<-|Hx]; [lia|]. now apply Hle.
    + exists z. repeat split; [now left|].
      intros x [<-|Hx]; [lia|]. specialize (Hle x Hx). lia.
Qed.

(** Dropping the empty domains does not change the concatenation. *)
Lemma concat_nonempty (domains : list (list Value)) :
  concat (List.filter (fun dom => negb (Nat.eqb (length dom) 0)) domains) = concat domains.
Proof.
  induction domains as [|d ds IH]; simpl; [reflexivity|].
  destruct d as [|v d]; simpl; [exact IH | now rewrite IH].
Qed.

(** Domains that are all intervals are all kept by the filter. *)
Lemma filter_intervals (bounds : list (Z * Z)) :
  List.filter (fun dom => negb (Nat.eqb (length dom) 0)) (map interval bounds)
  = map interval bounds.
Proof. induction bounds as [|b bs IH]; simpl; [reflexivity | now rewrite IH]. Qed.

(** The union of continuous domains does not depend on their order. *)
Lemma unionDomain_Permutation (domains domains' : list (list Value)) (fieldType : string) :
  fieldType <> CATEGORICAL ->
  Permutation domains domains' ->
  unionDomain domains' fieldType = unionDomain domains fieldType.
Proof.
  intros Hft Hperm. unfold Domain.unionDomain.
  destruct (String.eqb_spec fieldType CATEGORICAL) as [|_]; [contradiction|].
  set (keep := fun dom : list Value => negb (Nat.eqb (length dom) 0)).
  assert (Hkept : Permutation (List.filter keep domains) (List.filter keep domains')).
  { clear Hft. induction Hperm as [|x xs ys _ IH|x y xs|xs ys zs _ IH1 _ IH2]; simpl.
    - constructor.
    - destruct (keep x); [now constructor | exact IH].
    - destruct (keep x), (keep y); try reflexivity. apply perm_swap.
    - now transitivity (List.filter keep ys). }
  f_equal; [|f_equal]; f_equal; symmetry.
  - apply math_min_Permutation. now apply Permutation_map.
  - apply math_max_Permutation. now apply Permutation_map.
Qed.

(** C6, as amended: the union of categorical domains is their
    concatenation, series after series and each in its own order: its values
    are exactly the values of the contributing domains, and a value that
    several domains (or one domain several times) contribute appears once per
    contribution.  Nothing is removed. *)
Theorem unionDomain_categorical (domains : list (list Value)) :
  unionDomain domains CATEGORICAL = concat domains
  /\ (forall v, In v (unionDomain domains CATEGORICAL)
                <-> exists dom, In dom domains /\ In v dom)
  /\ length (unionDomain domains CATEGORICAL) = list_sum (map length domains).
Proof.
  assert (Heq : unionDomain domains CATEGORICAL = concat domains).
  { unfold Domain.unionDomain. rewrite String.eqb_refl. apply concat_nonempty. }
  rewrite Heq. split; [reflexivity|]. split.
  - intros v. rewrite in_concat. split.
    + intros (dom & Hdom & Hv). now exists dom.
    + intros (dom & Hdom & Hv). now exists dom.
  - clear Heq. induction domains as [|d ds IH]; simpl; [reflexivity|].
    rewrite length_app. now rewrite IH.
Qed.

(** C7: the union of continuous domains [[lower, upper]], at least one of
    them, is [[lo, hi]] where [lo] is the least of the lower bounds and [hi]
    the greatest of the upper bounds, and it is the same for every order of
    the contributing domains. *)
Theorem unionDomain_continuous (bounds : list (Z * Z)) (fieldType : string) :
  fieldType <> CATEGORICAL ->
  bounds <> [] ->
  (exists lo hi,
      unionDomain (map interval bounds) fieldType = [VNum (Fin lo); VNum (Fin hi)]
      /\ In lo (map fst bounds) /\ (forall b, In b bounds -> (lo <= b.1)%Z)
      /\ In hi (map snd bounds) /\ (forall b, In b bounds -> (b.2 <= hi)%Z))
  /\ (forall domains',
         Permutation (map interval bounds) domains' ->
         unionDomain domains' fieldType = unionDomain (map interval bounds) fieldType).
Proof.
  intros Hft Hne. split; [|intros domains'; now apply unionDomain_Permutation].
  destruct bounds as [|b bs]; [contradiction|]. clear Hne.
  unfold Domain.unionDomain.
  destruct (String.eqb_spec fieldType CATEGORICAL) as [|_]; [contradiction|].
  rewrite filter_intervals, !map_map.
  destruct (math_min_finite b.1 (map fst bs)) as (lo & Hlo & Hinlo & Hlelo).
  destruct (math_max_finite b.2 (map snd bs)) as (hi & Hhi & Hinhi & Hlehi).
  exists lo, hi. repeat split.
  - f_equal; [|f_equal]; f_equal.
    + rewrite <- Hlo. simpl. now rewrite map_map.
    + rewrite <- Hhi. simpl. now rewrite map_map.
  - exact Hinlo.
  - intros c Hc. apply Hlelo. change (In c.1 (map fst (b :: bs))). now apply in_map.
  - exact Hinhi.
  - intros c Hc. apply Hlehi. change (In c.2 (map snd (b :: bs))). now apply in_map.
Qed.

End DomainProperties.

(** [unionDomain([[2, 10], [-1, 5]])] is [[-1, 10]]. *)
Lemma unionDomain_continuous_witness :
  Domain.unionDomain "categorical" (fun _ => NaN)
    [[VNum (Fin 2); VNum (Fin 10)]; [VNum (Fin (-1)); VNum (Fin 5)]] "quantitative"
  = [VNum (Fin (-1)); VNum (Fin 10)].
Proof.
  destruct (unionDomain_continuous "categorical" (fun _ => NaN)
              [(2, 10); (-1, 5)]%Z "quantitative") as [(lo & hi & Heq & _) _].
  - discriminate.
  - discriminate.
  - reflexivity.
Defined.

(** C6, as stated, fails: the union of [['a', 'b']] and [['b', 'c']] keeps
    both occurrences of ['b']. *)
Lemma unionDomain_categorical_counterexample :
  Domain.unionDomain "categorical" (fun _ => NaN)
    [[VStr "a"; VStr "b"]; [VStr "b"; VStr "c"]] "categorical"
  = [VStr "a"; VStr "b"; VStr "b"; VStr "c"]
  /\ Domain.unionDomain "categorical" (fun _ => NaN)
       [[VStr "a"; VStr "b"]; [VStr "b"; VStr "c"]] "categorical"
     <> [VStr "a"; VStr "b"; VStr "c"].
Proof. split; [reflexivity | discriminate]. Qed.

(** ** The transactor *)

Section TransactorProperties.

Import Transactor.

Lemma is_undefined_spec (v : Value) : is_undefined v = true <-> v = VUndefined.
Proof. destruct v; simpl; split; congruence. Qed.

(** When every value is dropped, [values] stays empty. *)
Lemma collect_all_rejected (m : Meta) (prevVal : Value) (holder : gmap string Value)
    (params : list Value) (i : nat) :
  (forall j v, params !! j = Some v -> step m prevVal holder (i + j) v = Returned None) ->
  collect m prevVal holder i params = Returned [].
Proof.
  revert i. induction params as [|param rest IH]; intros i Hrej; simpl; [reflexivity|].
  rewrite <- (Nat.add_0_r i) at 1. rewrite (Hrej 0 param eq_refl). simpl.
  rewrite IH; [reflexivity|].
  intros j v Hj. rewrite Nat.add_succ_l, <- Nat.add_succ_r. now apply Hrej.
Qed.

(** The merge, position by position, with the indexing of JavaScript:
    reading past the end gives [undefined]. *)
Lemma merge_nth (values olds : list Value) (i : nat) :
  nth i (merge values olds) VUndefined
  = if is_undefined (nth i values VUndefined) then nth i olds VUndefined
    else nth i values VUndefined.
Proof.
  revert values i. induction olds as [|old olds IH]; intros values i.
  - simpl merge. destruct (is_undefined _) eqn:Hu; [|reflexivity].
    apply is_undefined_spec in Hu. rewrite Hu. now destruct i.
  - destruct values as [|v vs]; simpl merge.
    + destruct i as [|i]; [reflexivity|]. simpl. rewrite IH. now destruct i.
    + destruct i as [|i]; simpl; [reflexivity | apply IH].
Qed.

Lemma merge_length (values olds : list Value) :
  length (merge values olds) = Nat.max (length values) (length olds).
Proof.
  revert values. induction olds as [|old olds IH]; intros values.
  - simpl. lia.
  - destruct values as [|v vs]; simpl; rewrite IH; simpl; lia.
Qed.

Lemma merge_nil_l (olds : list Value) : merge [] olds = olds.
Proof. induction olds as [|old olds IH]; simpl; [reflexivity | now rewrite IH]. Qed.

Lemma prop_get_insert (st : gmap string Value) (key : string) (v : Value) :
  prop_get (<[key := v]> st) key = v.
Proof. unfold prop_get. now rewrite lookup_insert_eq. Qed.

(** Something is dropped only by a type check. *)
Lemma step_rejects_with_typeCheck (m : Meta) (prevVal : Value) (holder : gmap string Value)
    (i : nat) (param : Value) :
  step m prevVal holder i param = Returned None ->
  setting_truthy (typeCheck m) = true.
Proof.
  unfold step, resolve. destruct (setting_truthy (typeCheck m)) eqn:Htc; [reflexivity|].
  rewrite Htc. discriminate.
Qed.

(** A call without arguments reads the store and changes nothing. *)
Lemma accessor_getter (key : string) (meta : option Meta) (w : World) :
  accessor key meta [] w = (Returned (Got (prop_get (store w) key)), w).
Proof. reflexivity. Qed.

(** The setter, once the loop over [params] has produced [values]. *)
Lemma accessor_setter (key : string) (m : Meta) (params values : list Value) (w : World) :
  params <> [] ->
  collect m (prop_get (store w) key) (store w) 0 params = Returned values ->
  accessor key (Some m) params w
  = let w1 := call_preset m (nth 0 values VUndefined) (allocate w).2 in
    if spreadParams m then
      match for_each_target (prop_get (store w) key) with
      | Thrown e => (Thrown e, w1)
      | Returned olds =>
          if negb (Nat.eqb (length (merge values olds)) 0)
          then (Returned Holder, commit key (VArr (fresh w) (merge values olds)) w1)
          else (Returned Holder, w1)
      end
    else
      match values with
      | [] => (Returned Holder, w1)
      | v :: _ => (Returned Holder, commit key v w1)
      end.
Proof.
  intros Hne Hvalues. destruct params as [|param rest]; [contradiction|].
  unfold accessor. cbn [allocate snd store]. now rewrite Hvalues.
Qed.

(** The preset hook leaves the store alone and adds its event. *)
Lemma call_preset_store (m : Meta) (first : Value) (w : World) :
  store (call_preset m first w) = store w.
Proof. unfold call_preset. now destruct (preset m). Qed.

Lemma call_preset_trace (m : Meta) (first : Value) (w : World) :
  trace (call_preset m first w)
  = trace w ++ (if preset m then [PresetCalled first] else []).
Proof. unfold call_preset. destruct (preset m); cbn; [reflexivity | now rewrite app_nil_r]. Qed.

(** C1, as amended: take a setter call of which every value is rejected by
    the type check, and let [spreadParams] be unset or the stored value be an
    array.  Then the call does not throw and returns the holder.  Without
    [spreadParams], or when the stored array is empty, nothing is committed:
    the store is as before, the only event is the call of the preset hook if
    there is one, and the getter then returns the value stored before the
    call.  With [spreadParams] and a stored array that is not empty, the
    entries of that array are committed again, as a new array.  Nothing is
    said of [spreadParams] with a stored value that is not an array. *)
Theorem rejected_input_keeps_value (key : string) (m : Meta) (params : list Value) (w : World) :
  params <> [] ->
  (forall i v, params !! i = Some v ->
     step m (prop_get (store w) key) (store w) i v = Returned None) ->
  let result := accessor key (Some m) params w in
  let hook := if preset m then [PresetCalled VUndefined] else [] in
  ((spreadParams m = false \/ exists ref, prop_get (store w) key = VArr ref []) ->
     result.1 = Returned Holder
     /\ store result.2 = store w
     /\ trace result.2 = trace w ++ hook
     /\ (accessor key (Some m) [] result.2).1 = Returned (Got (prop_get (store w) key)))
  /\ (forall ref old olds,
        spreadParams m = true ->
        prop_get (store w) key = VArr ref (old :: olds) ->
        let again := VArr (fresh w) (old :: olds) in
        result.1 = Returned Holder
        /\ store result.2 = <[key := again]> (store w)
        /\ trace result.2 = trace w ++ hook ++ [Committed key again]
        /\ (accessor key (Some m) [] result.2).1 = Returned (Got again)).
Proof.
  intros Hne Hrej result hook.
  assert (Hvalues : collect m (prop_get (store w) key) (store w) 0 params = Returned []).
  { apply collect_all_rejected. exact Hrej. }
  assert (Hresult : result
            = let w1 := call_preset m VUndefined (allocate w).2 in
              if spreadParams m then
                match for_each_target (prop_get (store w) key) with
                | Thrown e => (Thrown e, w1)
                | Returned [] => (Returned Holder, w1)
                | Returned olds => (Returned Holder, commit key (VArr (fresh w) olds) w1)
                end
              else (Returned Holder, w1)).
  { subst result. rewrite (accessor_setter key m params [] w Hne Hvalues). cbn zeta.
    destruct (spreadParams m); [|reflexivity].
    destruct (for_each_target _) as [[|old olds]|e]; [reflexivity| |reflexivity].
    now rewrite merge_nil_l. }
  clearbody result. subst result hook. cbn zeta. split.
  - intros Hcase.
    assert (Hkept : (if spreadParams m then
                       match for_each_target (prop_get (store w) key) with
                       | Thrown e => (Thrown e, call_preset m VUndefined (allocate w).2)
                       | Returned [] => (Returned Holder, call_preset m VUndefined (allocate w).2)
                       | Returned olds =>
                           (Returned Holder,
                            commit key (VArr (fresh w) olds) (call_preset m VUndefined (allocate w).2))
                       end
                     else (Returned Holder, call_preset m VUndefined (allocate w).2))
                    = (Returned Holder, call_preset m VUndefined (allocate w).2)).
    { destruct Hcase as [-> | [ref ->]]; [reflexivity|]. now destruct (spreadParams m). }
    rewrite Hkept. cbn [fst snd]. rewrite accessor_getter, call_preset_store, call_preset_trace.
    repeat split.
  - intros ref old olds Hspread Hold. rewrite Hspread, Hold. cbn [for_each_target fst snd].
    rewrite accessor_getter. cbn [commit store trace fst].
    rewrite prop_get_insert, call_preset_store, call_preset_trace, <- app_assoc.
    repeat split.
Qed.

(** With [spreadParams], a setter call stores the sequence obtained from
    [values], the array of the values that were pushed, by position: where the
    value at a position is [undefined] (or missing), the entry of the
    previously stored sequence at that position is taken; elsewhere the value
    itself. *)
Lemma spread_setter_stores_merge (key : string) (m : Meta) (params values olds : list Value)
    (ref : nat) (w : World) :
  spreadParams m = true ->
  params <> [] ->
  prop_get (store w) key = VArr ref olds ->
  collect m (VArr ref olds) (store w) 0 params = Returned values ->
  let result := accessor key (Some m) params w in
  result.1 = Returned Holder
  /\ exists ref' stored,
       prop_get (store result.2) key = VArr ref' stored
       /\ length stored = Nat.max (length values) (length olds)
       /\ forall i,
            (nth i values VUndefined = VUndefined ->
               nth i stored VUndefined = nth i olds VUndefined)
            /\ (nth i values VUndefined <> VUndefined ->
                  nth i stored VUndefined = nth i values VUndefined).
Proof.
  intros Hspread Hne Hold Hvalues result.
  assert (Hpos : forall i,
            (nth i values VUndefined = VUndefined ->
               nth i (merge values olds) VUndefined = nth i olds VUndefined)
            /\ (nth i values VUndefined <> VUndefined ->
                  nth i (merge values olds) VUndefined = nth i values VUndefined)).
  { intros i. rewrite merge_nth. split.
    - intros ->. reflexivity.
    - intros Hdef. destruct (is_undefined _) eqn:Hu; [|reflexivity].
      apply is_undefined_spec in Hu. contradiction. }
  destruct params as [|param rest]; [contradiction|].
  subst result. unfold accessor. cbn [allocate]. cbn [store fresh trace].
  rewrite Hold, Hvalues, Hspread. unfold call_preset.
  assert (Hstore : forall w', store (if preset m then
                       {| store := store w'; fresh := fresh w';
                          trace := trace w' ++ [PresetCalled (nth 0 values VUndefined)] |}
                     else w') = store w') by (intros w'; now destruct (preset m)).
  cbn [for_each_target].
  destruct (Nat.eqb (length (merge values olds)) 0) eqn:Hlen; cbn [negb].
  - split; [reflexivity|]. exists ref, (merge values olds).
    apply Nat.eqb_eq in Hlen. cbn [snd]. rewrite Hstore. cbn [store].
    rewrite Hold. repeat split; try apply Hpos; [|apply merge_length].
    rewrite merge_length in Hlen.
    destruct values, olds; simpl in Hlen; try lia. reflexivity.
  - split; [reflexivity|]. exists (fresh w), (merge values olds).
    cbn [snd commit store]. rewrite prop_get_insert.
    repeat split; try apply Hpos. apply merge_length.
Qed.




(** C8, as amended: when a preset hook is declared and the filtering of
    the values completes, the hook is called once, with the first value that
    passed ([undefined] when none did), and a commit, if there is one, comes
    after that call.  When no value passed and either [spreadParams] is not
    set or the stored sequence is empty, no commit follows. *)
Theorem preset_runs_before_commit (key : string) (m : Meta) (params values : list Value)
    (w : World) :
  preset m = true ->
  params <> [] ->
  collect m (prop_get (store w) key) (store w) 0 params = Returned values ->
  let result := accessor key (Some m) params w in
  (exists after,
      trace result.2 = trace w ++ PresetCalled (nth 0 values VUndefined) :: after
      /\ (after = [] \/ exists v, after = [Committed key v]))
  /\ (values = [] ->
      spreadParams m = false \/ (exists ref, prop_get (store w) key = VArr ref []) ->
      result.1 = Returned Holder
      /\ trace result.2 = trace w ++ [PresetCalled VUndefined]).
Proof.
  intros Hpreset Hne Hvalues result.
  destruct params as [|param rest]; [contradiction|].
  subst result. unfold accessor. cbn [allocate]. cbn [store fresh trace].
  rewrite Hvalues. unfold call_preset. rewrite Hpreset. cbn [store fresh trace].
  split.
  - destruct (spreadParams m).
    + destruct (for_each_target _) as [olds|e]; cbn [snd].
      * destruct (negb _); cbn [snd commit trace].
        -- eexists. rewrite <- app_assoc. split; [reflexivity|]. right. now eexists.
        -- exists []. split; [reflexivity | now left].
      * exists []. split; [reflexivity | now left].
    + destruct values as [|v vs]; cbn [snd commit trace].
      * exists []. split; [reflexivity | now left].
      * eexists. rewrite <- app_assoc. split; [reflexivity|]. right. now eexists.
  - intros -> [Hspread | [ref Hold]].
    + rewrite Hspread. now split.
    + destruct (spreadParams m); [|now split].
      rewrite Hold. cbn. now split.
Qed.

(** C10, as amended: where the type check in force is the literal
    ['constructor'], a value that is falsy when it reaches the check, that is
    once sanitized, is dropped without an error: the name of its constructor
    is never asked for.  With [spreadParams] this is so when the expected
    names are there to be indexed. *)
Theorem constructor_check_rejects_falsy (m : Meta) (prevVal : Value)
    (holder : gmap string Value) (i : nat) (param : Value) :
  resolve (spreadParams m) (typeCheck m) i = Str "constructor" ->
  truthy (sanitize m prevVal holder i param) = false ->
  (spreadParams m = true -> typeExpected m <> VUndefined /\ typeExpected m <> VNull) ->
  check_constructor m i (sanitize m prevVal holder i param) = Returned None
  /\ step m prevVal holder i param = Returned None.
Proof.
  intros Hcheck Hfalsy Hexpected.
  assert (Hc : check_constructor m i (sanitize m prevVal holder i param) = Returned None).
  { unfold check_constructor. rewrite Hfalsy.
    destruct (spreadParams m); [|reflexivity].
    destruct (Hexpected eq_refl) as [Hu Hn].
    destruct (typeExpected m); try contradiction; reflexivity. }
  split; [exact Hc|].
  unfold step. rewrite Hcheck. cbn. exact Hc.
Qed.

End TransactorProperties.

(** ** The canvas change listener *)

Section CanvasProperties.

Import Canvas.

(** A callback that answers [false] at some position keeps [every] from
    answering [true]. *)
Lemma every_false_at {A : Type} (f : A -> nat -> Outcome bool) (l : list A)
    (k i : nat) (x : A) :
  l !! i = Some x -> f x (k + i) = Returned false -> every f k l <> Returned true.
Proof.
  revert k i. induction l as [|y l IH]; intros k i Hx Hf; [discriminate|].
  destruct i as [|i]; simpl in *.
  - inversion Hx; subst y. rewrite Nat.add_0_r in Hf. rewrite Hf. discriminate.
  - destruct (f y k) as [[|]|e]; simpl; try discriminate.
    apply (IH (S k) i Hx). now rewrite Nat.add_succ_l, <- Nat.add_succ_r.
Qed.

(** When the callback never throws, [every] answers [false] as soon as the
    callback does somewhere. *)
Lemma every_false_total {A : Type} (f : A -> nat -> Outcome bool) (l : list A)
    (k i : nat) (x : A) :
  (forall j y, l !! j = Some y -> exists b, f y (k + j) = Returned b) ->
  l !! i = Some x -> f x (k + i) = Returned false -> every f k l = Returned false.
Proof.
  revert k i. induction l as [|y l IH]; intros k i Htotal Hx Hf; [discriminate|].
  destruct i as [|i]; simpl in *.
  - inversion Hx; subst y. rewrite Nat.add_0_r in Hf. now rewrite Hf.
  - destruct (Htotal 0 y eq_refl) as [b Hb]. rewrite Nat.add_0_r in Hb. rewrite Hb.
    destruct b; simpl; [|reflexivity].
    apply (IH (S k) i); [| exact Hx | now rewrite Nat.add_succ_l, <- Nat.add_succ_r].
    intros j z Hz. rewrite Nat.add_succ_l, <- Nat.add_succ_r. now apply (Htotal (S j)).
Qed.

(** When the callback answers [true] everywhere, so does [every]. *)
Lemma every_all_true {A : Type} (f : A -> nat -> Outcome bool) (l : list A) (k : nat) :
  (forall j y, l !! j = Some y -> f y (k + j) = Returned true) ->
  every f k l = Returned true.
Proof.
  revert k. induction l as [|y l IH]; intros k Hall; simpl; [reflexivity|].
  specialize (Hall 0 y eq_refl) as Hy. rewrite Nat.add_0_r in Hy. rewrite Hy. simpl.
  apply IH. intros j z Hz. rewrite Nat.add_succ_l, <- Nat.add_succ_r. now apply (Hall (S j)).
Qed.

(** A name outside the recognized categories selects the checker that
    always answers "equal". *)
Lemma checker_for_unknown (option : string) (old new : Value) :
  recognized option = false -> checker_for option old new = Returned true.
Proof.
  unfold recognized, checker_for, one_of. cbn [existsb].
  intros Hunknown. repeat (apply orb_false_elim in Hunknown as [-> Hunknown]). reflexivity.
Qed.

(** A canvas that watches only names outside the recognized categories
    never sees a change. *)
Lemma equalityChecker_all_unknown (props : list string) (params : list (Value * Value)) :
  Forall (fun option => recognized option = false) props ->
  length params = length props ->
  equalityChecker props params = Returned false.
Proof.
  intros Hunknown Hlen. unfold equalityChecker.
  rewrite every_all_true; [reflexivity|].
  intros j option Hj. simpl.
  destruct (params !! j) as [[old new]|] eqn:Hp.
  - unfold pair_at. rewrite Hp. simpl. apply checker_for_unknown.
    rewrite Forall_forall in Hunknown. apply Hunknown. now apply list_elem_of_lookup_2 with j.
  - apply lookup_ge_None in Hp. apply lookup_lt_Some in Hj. lia.
Qed.

(** C2, where the code departs from it: the result of [equalityChecker] is
    overwritten by that of [updateChecker], so that a mounted canvas
    dispatches and renders whenever the new values are valid, whether or not
    any property is deemed changed. *)
Theorem changeListener_ignores_equality (props : list string) (params : list (Value * Value))
    (changed : bool) :
  equalityChecker props params = Returned changed ->
  updateChecker props params = Returned true ->
  changeListener props params true = Returned [DispatchProps; Render].
Proof. intros Heq Hup. unfold changeListener. now rewrite Heq, Hup. Qed.

(** C4, as amended: for a name outside the recognized categories, any pair
    of old and new values is treated as equal, that is as unchanged, whether
    or not the two values are equal. *)
Theorem unknown_category_never_changed (option : string) (old new : Value) :
  recognized option = false ->
  checker_for option old new = Returned true
  /\ equalityChecker [option] [(old, new)] = Returned false.
Proof.
  intros Hunknown. split; [now apply checker_for_unknown|].
  apply equalityChecker_all_unknown; [now constructor | reflexivity].
Qed.

(** C5: when the new value of [rows] or [columns] is [null], or the new
    value of [data] is falsy (absent, for one) or a data model that reports
    itself empty, [updateChecker] does not answer [true] and the listener does
    no downstream work, whatever [equalityChecker] answers; on well-formed
    parameters [updateChecker] answers [false]. *)
Theorem invalid_values_suppress_render (props : list string) (params : list (Value * Value))
    (mounted : bool) (i : nat) (option : string) (old new : Value) :
  props !! i = Some option ->
  params !! i = Some (old, new) ->
  ((option = ROWS \/ option = COLUMNS) /\ new = VNull)
  \/ (option = DATA
      /\ (truthy new = false \/ exists ref ctor, new = VObj ref ctor (Some true))) ->
  updateChecker props params <> Returned true
  /\ ran (changeListener props params mounted) = false
  /\ (well_formed props params -> updateChecker props params = Returned false).
Proof.
  intros Hoption Hpair Hinvalid.
  set (check := fun (option : string) (i : nat) =>
         let* p := pair_at params i in
         let val := p.2 in
         if one_of option [ROWS; COLUMNS] then Returned (negb (strict_eq val VNull))
         else if one_of option [DATA] then
           if truthy val then let* empty := call_isEmpty val in Returned (negb empty)
           else Returned false
         else Returned true).
  assert (Hfalse : check option i = Returned false).
  { subst check. cbn beta. unfold pair_at. rewrite Hpair. simpl.
    destruct Hinvalid as [[[-> | ->] ->] | [-> [Hfalsy | (ref & ctor & ->)]]];
      try reflexivity.
    cbn. now rewrite Hfalsy. }
  assert (Hnot : updateChecker props params <> Returned true).
  { exact (every_false_at check props 0 i option Hoption Hfalse). }
  split; [exact Hnot|]. split.
  - unfold changeListener.
    destruct (equalityChecker props params) as [changed|e]; [|reflexivity]. simpl.
    destruct (updateChecker props params) as [[|]|e]; [contradiction | reflexivity | reflexivity].
  - intros Hwf. apply (every_false_total check props 0 i option); [|exact Hoption|exact Hfalse].
    intros j opt Hj. destruct (Hwf j opt Hj) as (old' & new' & Hp & Hdata).
    subst check. cbn beta. rewrite Nat.add_0_l. unfold pair_at. rewrite Hp. cbn [bind snd].
    destruct (one_of opt [ROWS; COLUMNS]); [now eexists|].
    destruct (one_of opt [DATA]) eqn:Hopt; [|now eexists].
    destruct (truthy new') eqn:Htruthy; [|now eexists].
    destruct Hdata as (ref & ctor & empty & ->); [|reflexivity|now eexists].
    unfold one_of in Hopt. simpl in Hopt. rewrite orb_false_r in Hopt.
    now apply String.eqb_eq in Hopt.
Qed.

End CanvasProperties.

(** A mounted canvas of which rows, columns and data are committed again
    unchanged: no change is seen, and it dispatches and renders. *)
Lemma changeListener_ignores_equality_witness :
  Canvas.equalityChecker [Canvas.ROWS; Canvas.COLUMNS; Canvas.DATA]
    [(Canvas.some_rows, Canvas.some_rows); (Canvas.some_columns, Canvas.some_columns);
     (Canvas.some_data, Canvas.some_data)] = Returned false
  /\ Canvas.changeListener [Canvas.ROWS; Canvas.COLUMNS; Canvas.DATA]
       [(Canvas.some_rows, Canvas.some_rows); (Canvas.some_columns, Canvas.some_columns);
        (Canvas.some_data, Canvas.some_data)] true
     = Returned [Canvas.DispatchProps; Canvas.Render].
Proof.
  split; [reflexivity|].
  apply (changeListener_ignores_equality _ _ false); reflexivity.
Defined.

(** C4, as stated, fails: a [width] that goes from 400 to 600 is not
    deemed changed. *)
Lemma unknown_category_counterexample :
  Canvas.recognized "width" = false
  /\ Canvas.equalityChecker ["width"] [(VNum (Fin 400), VNum (Fin 600))] = Returned false.
Proof. split; reflexivity. Qed.

(** A [width] that goes from 400 to 600 is treated as unchanged. *)
Lemma unknown_category_never_changed_witness :
  Canvas.checker_for "width" (VNum (Fin 400)) (VNum (Fin 600)) = Returned true.
Proof.
  apply (unknown_category_never_changed "width" (VNum (Fin 400)) (VNum (Fin 600))).
  reflexivity.
Defined.

(** Data committed alone while rows and columns are [null]: a change is
    seen, and the listener does no downstream work. *)
Lemma invalid_values_suppress_render_witness :
  Canvas.equalityChecker [Canvas.ROWS; Canvas.COLUMNS; Canvas.DATA]
    [(VNull, VNull); (VNull, VNull); (VUndefined, Canvas.some_data)] = Returned true
  /\ Canvas.ran
       (Canvas.changeListener [Canvas.ROWS; Canvas.COLUMNS; Canvas.DATA]
          [(VNull, VNull); (VNull, VNull); (VUndefined, Canvas.some_data)] true) = false.
Proof.
  split; [reflexivity|].
  apply (invalid_values_suppress_render _ _ true 0 Canvas.ROWS VNull VNull).
  - reflexivity.
  - reflexivity.
  - left. split; [now left | reflexivity].
Defined.

(** A string given to [width], checked by [isNumber]: nothing is committed
    and the getter still answers 100. *)
Lemma rejected_input_keeps_value_witness :
  (Transactor.accessor "width" (Some Transactor.number_with_preset) [VStr "wide"]
     Transactor.width_world).1 = Returned Transactor.Holder
  /\ (Transactor.accessor "width" (Some Transactor.number_with_preset) []
        (Transactor.accessor "width" (Some Transactor.number_with_preset) [VStr "wide"]
           Transactor.width_world).2).1
     = Returned (Transactor.Got (VNum (Fin 100))).
Proof.
  destruct (rejected_input_keeps_value "width" Transactor.number_with_preset [VStr "wide"]
              Transactor.width_world) as [Hkept _].
  - discriminate.
  - intros [|[|i]] v Hv; simpl in Hv; try discriminate. now inversion Hv.
  - destruct Hkept as (Hreply & _ & _ & Hget); [now left|]. split; [exact Hreply | exact Hget].
Defined.

(** C1, as stated, fails: with [spreadParams], two strings given to a
    [size] that holds [[1, 2]] both fail [isNumber], and yet a commit occurs:
    the store receives a new array.  And a string given to a [size] that
    holds [null] fails [isNumber] too, and the call throws. *)
Lemma rejected_input_counterexample :
  (forall i v, [VStr "x"; VStr "y"] !! i = Some v ->
     Transactor.step Transactor.spread_numbers
       (Transactor.prop_get (Transactor.store Transactor.size_world) "size")
       (Transactor.store Transactor.size_world) i v = Returned None)
  /\ Transactor.trace
       (Transactor.accessor "size" (Some Transactor.spread_numbers) [VStr "x"; VStr "y"]
          Transactor.size_world).2
     = [Transactor.Committed "size" (VArr 1 [VNum (Fin 1); VNum (Fin 2)])]
  /\ Transactor.store
       (Transactor.accessor "size" (Some Transactor.spread_numbers) [VStr "x"; VStr "y"]
          Transactor.size_world).2 !! "size"
     <> Transactor.store Transactor.size_world !! "size"
  /\ Transactor.step Transactor.spread_numbers
       (Transactor.prop_get (Transactor.store Transactor.unset_world) "size")
       (Transactor.store Transactor.unset_world) 0 (VStr "x") = Returned None
  /\ (Transactor.accessor "size" (Some Transactor.spread_numbers) [VStr "x"]
        Transactor.unset_world).1 = Thrown NullProperty.
Proof.
  split; [|split; [|split; [|split]]].
  - intros [|[|[|i]]] v Hv; simpl in Hv; try discriminate; now inversion Hv.
  - reflexivity.
  - vm_compute. discriminate.
  - reflexivity.
  - reflexivity.
Qed.



(** A string given to [width]: the preset hook is called with [undefined]
    and nothing else happens. *)
Lemma preset_runs_before_commit_witness :
  Transactor.trace
    (Transactor.accessor "width" (Some Transactor.number_with_preset) [VStr "wide"]
       Transactor.width_world).2
  = [Transactor.PresetCalled VUndefined].
Proof.
  destruct (preset_runs_before_commit "width" Transactor.number_with_preset [VStr "wide"] []
              Transactor.width_world) as [_ Hnone].
  - reflexivity.
  - discriminate.
  - reflexivity.
  - destruct Hnone as [_ Htrace]; [reflexivity | now left | exact Htrace].
Defined.

(** C8, as stated, fails: with [spreadParams], two [null] given to a [size]
    that holds [[1, 2]] are both dropped, the preset hook is called with
    [undefined], and a commit follows. *)
Lemma preset_counterexample :
  Transactor.collect Transactor.spread_constructors
    (Transactor.prop_get (Transactor.store Transactor.size_world) "size")
    (Transactor.store Transactor.size_world) 0 [VNull; VNull] = Returned []
  /\ Transactor.trace
       (Transactor.accessor "size" (Some Transactor.spread_constructors) [VNull; VNull]
          Transactor.size_world).2
     = [Transactor.PresetCalled VUndefined;
        Transactor.Committed "size" (VArr 1 [VNum (Fin 1); VNum (Fin 2)])].
Proof. split; reflexivity. Qed.

(** [null] given to a property checked by ['constructor'] is dropped; and
    so is 0 at the second position of a [spreadParams] property whose
    expected names are given. *)
Lemma constructor_check_rejects_falsy_witness :
  Transactor.step Transactor.constructor_number VUndefined ∅ 0 VNull = Returned None
  /\ Transactor.step Transactor.spread_constructors VUndefined ∅ 1 (VNum (Fin 0))
     = Returned None.
Proof.
  split.
  - apply (constructor_check_rejects_falsy Transactor.constructor_number VUndefined ∅ 0 VNull).
    + reflexivity.
    + reflexivity.
    + discriminate.
  - apply (constructor_check_rejects_falsy Transactor.spread_constructors VUndefined ∅ 1
             (VNum (Fin 0))).
    + reflexivity.
    + reflexivity.
    + intros _. split; discriminate.
Defined.

(** C10, as stated, fails.  Sanitization runs before the check: [null]
    given to a [width] whose sanitization puts 1 in the place of a falsy value
    is not rejected, and 1 is committed.  And with [spreadParams] and no
    [typeExpected], [null] is not dropped: the call throws, on the read of
    [meta.typeExpected[0]]. *)
Lemma constructor_check_counterexample :
  truthy VNull = false
  /\ (Transactor.accessor "width" (Some Transactor.constructor_defaulting) [VNull]
        Transactor.width_world).1 = Returned Transactor.Holder
  /\ Transactor.trace
       (Transactor.accessor "width" (Some Transactor.constructor_defaulting) [VNull]
          Transactor.width_world).2
     = [Transactor.Committed "width" (VNum (Fin 1))]
  /\ (Transactor.accessor "size" (Some Transactor.spread_unexpected) [VNull]
        Transactor.size_world).1 = Thrown NullProperty.
Proof. repeat split. Qed.

(** * Part III: further properties of the functions above *)

(** ** Input sanitization on objects *)

(** [typeObj(['a', 'b', 'c'], obj)] on an object that has only the key
    ['b']. *)
Lemma typeObj_object_witness :
  Sanitize.typeObj (fun _ key => String.eqb key "b") ["a"; "b"; "c"]
    (VObj 0 (Some "Object") None)
  = Returned (Sanitize.ErrorValue "Missing keys from parameter a, c").
Proof.
  apply (typeObj_object (fun _ key => String.eqb key "b") ["a"; "b"; "c"]
           (VObj 0 (Some "Object") None)).
  reflexivity.
Defined.

(** ** Domains: edges and composition *)

Section DomainEdges.

Variable CATEGORICAL : string.
Variable coerce : Value -> num.

Import Domain.

Local Abbreviation unionDomain := (Domain.unionDomain CATEGORICAL coerce).

Lemma min2_PosInf_r (a : num) : min2 a PosInf = a.
Proof. now destruct a. Qed.

Lemma max2_NegInf_r (a : num) : max2 a NegInf = a.
Proof. now destruct a. Qed.

Lemma math_min_app (xs ys : list num) :
  math_min (xs ++ ys) = min2 (math_min xs) (math_min ys).
Proof.
  unfold math_min. induction xs as [|x xs IH]; cbn [fold_right app].
  - now destruct (fold_right min2 PosInf ys).
  - rewrite IH. apply min2_assoc.
Qed.

Lemma math_max_app (xs ys : list num) :
  math_max (xs ++ ys) = max2 (math_max xs) (math_max ys).
Proof.
  unfold math_max. induction xs as [|x xs IH]; cbn [fold_right app].
  - now destruct (fold_right max2 NegInf ys).
  - rewrite IH. apply max2_assoc.
Qed.

Lemma math_max_NaN (xs : list num) : In NaN xs -> math_max xs = NaN.
Proof.
  unfold math_max. induction xs as [|x xs IH]; simpl; [contradiction|].
  intros [-> | Hin]; [reflexivity|]. rewrite (IH Hin). now destruct x.
Qed.

(** The union of two unions is the union of all the contributing
    domains, for categorical and for continuous fields alike. *)
Theorem unionDomain_of_unions (domains1 domains2 : list (list Value)) (fieldType : string) :
  unionDomain [unionDomain domains1 fieldType; unionDomain domains2 fieldType] fieldType
  = unionDomain (domains1 ++ domains2) fieldType.
Proof.
  unfold Domain.unionDomain.
  destruct (String.eqb fieldType CATEGORICAL).
  - rewrite !concat_nonempty, concat_app. simpl. now rewrite app_nil_r.
  - rewrite List.filter_app, !map_app, math_min_app, math_max_app. simpl.
    now rewrite min2_PosInf_r, max2_NegInf_r.
Qed.

(** When no contributing domain holds a value, the union of a categorical
    field is empty and that of a continuous field is the inverted interval
    [[Infinity, -Infinity]]. *)
Theorem unionDomain_nothing (domains : list (list Value)) (fieldType : string) :
  (forall dom, In dom domains -> dom = []) ->
  unionDomain domains fieldType
  = if String.eqb fieldType CATEGORICAL then [] else [VNum PosInf; VNum NegInf].
Proof.
  intros Hempty.
  assert (Hnone : List.filter (fun dom : list Value => negb (Nat.eqb (length dom) 0)) domains = []).
  { induction domains as [|d ds IH]; [reflexivity|]. simpl.
    rewrite (Hempty d) by now left. simpl. apply IH. intros dom Hdom. apply Hempty. now right. }
  unfold Domain.unionDomain. rewrite Hnone. reflexivity.
Qed.

(** A contributing domain that holds a single value makes the upper bound
    of the union of a continuous field [NaN], whatever the other domains. *)
Theorem unionDomain_single_value (domains : list (list Value)) (fieldType : string)
    (v : Value) :
  fieldType <> CATEGORICAL ->
  In [v] domains ->
  nth 1 (unionDomain domains fieldType) VUndefined = VNum NaN.
Proof.
  intros Hft Hin. unfold Domain.unionDomain.
  destruct (String.eqb_spec fieldType CATEGORICAL) as [|_]; [contradiction|].
  simpl. f_equal. apply math_max_NaN.
  apply in_map_iff. exists [v]. split; [reflexivity|].
  apply filter_In. now split.
Qed.

End DomainEdges.

(** No domain at all, for a continuous field. *)
Lemma unionDomain_nothing_witness :
  Domain.unionDomain "categorical" (fun _ => NaN) [[]; []] "quantitative"
  = [VNum PosInf; VNum NegInf].
Proof.
  apply (unionDomain_nothing "categorical" (fun _ => NaN) [[]; []] "quantitative").
  intros dom [<- | [<- | []]]; reflexivity.
Defined.

(** [[2, 10]] together with [[7]]. *)
Lemma unionDomain_single_value_witness :
  nth 1 (Domain.unionDomain "categorical" (fun _ => NaN)
           [[VNum (Fin 2); VNum (Fin 10)]; [VNum (Fin 7)]] "quantitative") VUndefined
  = VNum NaN.
Proof.
  apply (unionDomain_single_value "categorical" (fun _ => NaN) _ "quantitative" (VNum (Fin 7))).
  - discriminate.
  - right. now left.
Defined.

(** ** Array equality and the listener *)

Section CanvasEdges.

Import Canvas.

(** The loop of [arraysEqual] on two arrays: it never throws and answers
    whether the entries below [n] are pairwise [===]. *)
Lemma same_below_arrays (r r' : nat) (a b : list Value) (n : nat) :
  exists same, same_below (VArr r a) (VArr r' b) n = Returned same
    /\ (same = true <->
        forall i, i < n -> strict_eq (nth i a VUndefined) (nth i b VUndefined) = true).
Proof.
  induction n as [|n (same & Hsame & Hiff)].
  - exists true. split; [reflexivity|]. split; [intros _ i Hi; lia | reflexivity].
  - cbn [same_below index element bind].
    destruct (strict_eq (nth n a VUndefined) (nth n b VUndefined)) eqn:Hn.
    + exists same. split; [exact Hsame|]. rewrite Hiff. split.
      * intros Hall i Hi. destruct (decide (i = n)) as [->|]; [exact Hn | apply Hall; lia].
      * intros Hall i Hi. apply Hall. lia.
    + exists false. split; [reflexivity|]. split; [discriminate|].
      intros Hall. rewrite (Hall n) in Hn by lia. discriminate.
Qed.

(** [arraysEqual] on two arrays never throws, and answers [true] exactly
    when the arrays have the same length and their entries are pairwise
    [===]: nested arrays and objects are compared by reference, and an array
    that holds [NaN] is not equal to itself. *)
Theorem arraysEqual_arrays (r r' : nat) (a b : list Value) :
  exists same, arraysEqual (VArr r a) (VArr r' b) = Returned same
    /\ (same = true <->
        length a = length b
        /\ forall i, i < length a ->
             strict_eq (nth i a VUndefined) (nth i b VUndefined) = true).
Proof.
  unfold arraysEqual. cbn [length_of bind].
  destruct (Nat.eqb_spec (length a) (length b)) as [Hlen | Hlen].
  - destruct (same_below_arrays r r' a b (length a)) as (same & Hsame & Hiff).
    exists same. split; [exact Hsame|]. rewrite Hiff. tauto.
  - exists false. split; [reflexivity|]. split; [discriminate | tauto].
Qed.

(** [every] throws where the callback first throws, when the callback
    answered [true] before. *)
Lemma every_thrown_at {A : Type} (f : A -> nat -> Outcome bool) (l : list A)
    (k i : nat) (x : A) (e : Fault) :
  l !! i = Some x -> f x (k + i) = Thrown e ->
  (forall j y, j < i -> l !! j = Some y -> f y (k + j) = Returned true) ->
  every f k l = Thrown e.
Proof.
  revert k i. induction l as [|y l IH]; intros k i Hx Hf Hbefore; [discriminate|].
  destruct i as [|i]; simpl in *.
  - inversion Hx; subst y. rewrite Nat.add_0_r in Hf. now rewrite Hf.
  - specialize (Hbefore 0 y (Nat.lt_0_succ i) eq_refl) as Hy.
    rewrite Nat.add_0_r in Hy. rewrite Hy. simpl.
    apply (IH (S k) i Hx); [now rewrite Nat.add_succ_l, <- Nat.add_succ_r|].
    intros j z Hj Hz. rewrite Nat.add_succ_l, <- Nat.add_succ_r.
    apply (Hbefore (S j)); [lia | exact Hz].
Qed.

(** When [rows], [columns] or [detail] goes from a truthy value to [null]
    or [undefined] and the properties watched before it are deemed equal, the
    listener does not skip the render quietly: it throws a [TypeError], from
    the read of [length] on the new value in [arraysEqual]. *)
Theorem changeListener_throws_on_reset (props : list string) (params : list (Value * Value))
    (mounted : bool) (i : nat) (option : string) (old new : Value) :
  props !! i = Some option ->
  params !! i = Some (old, new) ->
  one_of option [ROWS; COLUMNS; DETAIL] = true ->
  truthy old = true ->
  new = VNull \/ new = VUndefined ->
  (forall j name p, j < i -> props !! j = Some name -> params !! j = Some p ->
     checker_for name p.1 p.2 = Returned true) ->
  equalityChecker props params = Thrown NullProperty
  /\ changeListener props params mounted = Thrown NullProperty.
Proof.
  intros Hoption Hpair Hcat Hold Hnew Hbefore.
  set (check := fun (option : string) (i : nat) =>
         let checker := checker_for option in
         let* p := pair_at params i in checker p.1 p.2).
  assert (Hthrown : every check 0 props = Thrown NullProperty).
  { apply (every_thrown_at check props 0 i option); [exact Hoption | |].
    - subst check. cbn beta. rewrite Nat.add_0_l. unfold pair_at. rewrite Hpair.
      cbn [bind fst snd]. unfold checker_for. rewrite Hcat.
      unfold isEqual. cbn [String.eqb Ascii.eqb Bool.eqb]. rewrite Hold. cbn [negb].
      unfold arraysEqual.
      destruct old; try discriminate Hold; destruct Hnew as [-> | ->]; reflexivity.
    - intros j name Hj Hname. subst check. cbn beta. rewrite Nat.add_0_l.
      assert (Hlt : j < length params).
      { apply lookup_lt_Some in Hpair. lia. }
      destruct (lookup_lt_is_Some_2 params j Hlt) as [p Hp].
      unfold pair_at. rewrite Hp. cbn [bind]. now apply (Hbefore j). }
  assert (Heq : equalityChecker props params = Thrown NullProperty).
  { unfold equalityChecker. fold check. now rewrite Hthrown. }
  split; [exact Heq|]. unfold changeListener. now rewrite Heq.
Qed.

(** The downstream work runs exactly when the canvas is mounted,
    [equalityChecker] returns (whatever it answers) and [updateChecker]
    answers [true]. *)
Theorem changeListener_runs_iff (props : list string) (params : list (Value * Value))
    (mounted : bool) :
  ran (changeListener props params mounted) = true
  <-> mounted = true
      /\ (exists changed, equalityChecker props params = Returned changed)
      /\ updateChecker props params = Returned true.
Proof.
  unfold changeListener.
  destruct (equalityChecker props params) as [changed|e]; cbn [bind].
  - destruct (updateChecker props params) as [[|]|e]; cbn [bind andb].
    + destruct mounted; simpl.
      * split; [|reflexivity]. intros _. repeat split. now exists changed.
      * split; [discriminate|]. now intros (Hm & _).
    + simpl. split; [discriminate|]. now intros (_ & _ & H).
    + simpl. split; [discriminate|]. now intros (_ & _ & H).
  - simpl. split; [discriminate|]. now intros (_ & [changed H] & _).
Qed.

End CanvasEdges.

(** Rows set back to [null] on a canvas that had rows. *)
Lemma changeListener_throws_on_reset_witness :
  Canvas.changeListener [Canvas.ROWS; Canvas.COLUMNS]
    [(Canvas.some_rows, VNull); (Canvas.some_columns, Canvas.some_columns)] true
  = Thrown NullProperty.
Proof.
  apply (changeListener_throws_on_reset _ _ true 0 Canvas.ROWS Canvas.some_rows VNull).
  - reflexivity.
  - reflexivity.
  - reflexivity.
  - reflexivity.
  - now left.
  - intros j name p Hj. lia.
Defined.

(** ** The transactor: the value that is committed, errors and defaults *)

Section TransactorEdges.

Import Transactor.

(** Without [spreadParams], a setter call writes once to the store: the
    first argument that the type check accepts, which need not be the first
    argument, after the call of the preset hook with that value.  The
    arguments that follow are ignored, accepted or not, and the holder is
    returned.  Here the check is a function and no sanitization is declared;
    an argument is accepted when the check answers [typeExpected], or [true]
    when [typeExpected] is falsy. *)
Theorem setter_commits_first_accepted (key : string) (m : Meta) (f : Value -> Value)
    (rejected : list Value) (v : Value) (rest : list Value) (w : World) :
  spreadParams m = false ->
  sanitization m = Unset ->
  typeCheck m = Fn f ->
  let compareTo := if truthy (typeExpected m) then typeExpected m else VBool true in
  (forall r, In r rejected -> strict_eq (f r) compareTo = false) ->
  strict_eq (f v) compareTo = true ->
  let result := accessor key (Some m) (rejected ++ v :: rest) w in
  result.1 = Returned Holder
  /\ trace result.2
     = trace w ++ (if preset m then [PresetCalled v] else []) ++ [Committed key v].
Proof.
  intros Hspread Hsan Hcheck compareTo Hrejected Haccepted result.
  assert (Hstep : forall prevVal holder i param,
            step m prevVal holder i param
            = Returned (if strict_eq (f param) compareTo then Some param else None)).
  { intros prevVal holder i param. unfold step, sanitize, resolve.
    rewrite Hspread, Hsan, Hcheck. cbn [setting_truthy]. unfold check_function.
    rewrite Hspread, andb_false_r. reflexivity. }
  assert (Hvalues : forall prevVal holder i,
            exists vs, collect m prevVal holder i (rejected ++ v :: rest) = Returned (v :: vs)).
  { intros prevVal holder. induction rejected as [|r rejected' IH]; intros i.
    - cbn [app collect]. rewrite Hstep, Haccepted. cbn [bind].
      assert (Hrest : forall j, exists vs, collect m prevVal holder j rest = Returned vs).
      { clear -Hstep. induction rest as [|p rest' IH]; intros j; [now exists []|].
        cbn [collect]. rewrite Hstep. cbn [bind]. destruct (IH (S j)) as [vs ->]. cbn [bind].
        now eexists. }
      destruct (Hrest (S i)) as [vs ->]. cbn [bind]. now exists vs.
    - cbn [app collect]. rewrite Hstep, (Hrejected r) by now left. cbn [bind].
      destruct (IH ltac:(intros r' Hr'; apply Hrejected; now right) (S i)) as [vs ->].
      cbn [bind]. now exists vs. }
  destruct (Hvalues (prop_get (store w) key) (store w) 0) as [vs Hcollect].
  assert (Hne : rejected ++ v :: rest <> []) by now destruct rejected.
  subst result. rewrite (accessor_setter key m _ (v :: vs) w Hne Hcollect).
  cbn zeta. rewrite Hspread. cbn [fst snd nth commit trace].
  rewrite call_preset_trace, <- app_assoc. split; reflexivity.
Qed.

(** The values that are pushed when the checks are functions, given per
    position or left out, and neither [typeExpected] nor a sanitization is
    declared: the arguments that their check answers [true] for, in order and
    without holes. *)
Lemma collect_checked (m : Meta) (check : nat -> option (Value -> Value))
    (prevVal : Value) (holder : gmap string Value) (params : list Value) (i : nat) :
  sanitization m = Unset ->
  truthy (typeExpected m) = false ->
  (forall j, resolve (spreadParams m) (typeCheck m) j
             = match check j with Some f => Fn f | None => Unset end) ->
  collect m prevVal holder i params
  = Returned
      (map snd
         (List.filter
            (fun ip : nat * Value =>
               match check ip.1 with
               | Some f => strict_eq (f ip.2) (VBool true)
               | None => true
               end)
            (combine (seq i (length params)) params))).
Proof.
  intros Hsan Hexp Hcheck. revert i.
  induction params as [|param rest IH]; intros i; [reflexivity|].
  cbn [collect length seq combine List.filter fst snd]. rewrite IH.
  unfold step, sanitize. rewrite Hcheck. unfold resolve. rewrite Hsan. cbn [setting_truthy].
  destruct (check i) as [f|]; cbn [setting_truthy bind].
  - unfold check_function. rewrite Hexp. cbn [andb]. rewrite Hexp.
    now destruct (strict_eq (f param) (VBool true)).
  - reflexivity.
Qed.

(** With [spreadParams], the merge with the previously stored sequence
    goes by the positions of the values that passed their check, not by the
    positions of the arguments: an argument that its check rejects leaves no
    hole, and the arguments after it move down.  Here the checks are
    functions, given per position or left out ([check]), without
    [typeExpected] and without sanitization.  The sequence that is stored has,
    at every position, the accepted value of that position, or the entry of
    the previous sequence when that value is [undefined] or missing. *)
Theorem spread_setter_shifts (key : string) (m : Meta) (check : nat -> option (Value -> Value))
    (params olds : list Value) (ref : nat) (w : World) :
  spreadParams m = true ->
  sanitization m = Unset ->
  truthy (typeExpected m) = false ->
  (forall i, resolve true (typeCheck m) i
             = match check i with Some f => Fn f | None => Unset end) ->
  params <> [] ->
  prop_get (store w) key = VArr ref olds ->
  let accepted (ip : nat * Value) :=
    match check ip.1 with
    | Some f => strict_eq (f ip.2) (VBool true)
    | None => true
    end in
  let values := map snd (List.filter accepted (combine (seq 0 (length params)) params)) in
  let result := accessor key (Some m) params w in
  result.1 = Returned Holder
  /\ exists ref' stored,
       prop_get (store result.2) key = VArr ref' stored
       /\ length stored = Nat.max (length values) (length olds)
       /\ forall i,
            (nth i values VUndefined = VUndefined ->
               nth i stored VUndefined = nth i olds VUndefined)
            /\ (nth i values VUndefined <> VUndefined ->
                  nth i stored VUndefined = nth i values VUndefined).
Proof.
  intros Hspread Hsan Hexp Hcheck Hne Hold accepted values result.
  apply (spread_setter_stores_merge key m params values olds ref w Hspread Hne Hold).
  subst values accepted. apply collect_checked; [exact Hsan | exact Hexp |].
  now rewrite Hspread.
Qed.


(** The loop of [transactor] over the options leaves alone the properties
    that no option names. *)
Lemma install_other (options : list (string * Descriptor)) (st : gmap string Value)
    (prop : string) :
  ~ In prop (map fst options) ->
  fold_left
    (fun st '(prop, conf) =>
       if truthy (prop_get st prop) then st else <[prop := value conf]> st)
    options st !! prop = st !! prop.
Proof.
  revert st. induction options as [|[p c] rest IH]; intros st Hnot; [reflexivity|].
  cbn [fold_left]. rewrite IH.
  - destruct (truthy (prop_get st p)); [reflexivity|].
    apply lookup_insert_ne. intros ->. apply Hnot. now left.
  - intros Hin. apply Hnot. now right.
Qed.

(** [transactor] gives a property its default exactly when the store held
    no truthy value for it: a value the model already holds is kept, unless
    it is falsy ([0], [''], [false], [null]), in which case the default takes
    its place.  Properties that the options do not name are untouched. *)
Theorem transactor_defaults (options : list (string * Descriptor))
    (model : option (gmap string Value)) (prop : string) :
  NoDup (map fst options) ->
  (forall conf, In (prop, conf) options ->
     prop_get (transactor options model) prop
     = if truthy (prop_get (default ∅ model) prop) then prop_get (default ∅ model) prop
       else value conf)
  /\ (~ In prop (map fst options) ->
      transactor options model !! prop = default ∅ model !! prop).
Proof.
  intros Hnodup. split; [|apply install_other].
  intros conf Hin. unfold transactor. generalize (default ∅ model) as st.
  induction options as [|[p c] rest IH]; intros st; [contradiction|].
  simpl in Hnodup. inversion Hnodup as [|? ? Hfresh Hrest]; subst.
  rewrite list_elem_of_In in Hfresh.
  cbn [fold_left]. destruct Hin as [Heq | Hin].
  - inversion Heq; subst p c. unfold prop_get at 1. rewrite install_other by exact Hfresh.
    fold (prop_get (if truthy (prop_get st prop) then st else <[prop:=value conf]> st) prop).
    destruct (truthy (prop_get st prop)); [reflexivity | apply prop_get_insert].
  - rewrite (IH Hrest Hin).
    assert (Hne : p <> prop).
    { intros ->. apply Hfresh. change prop with (fst (prop, conf)). now apply in_map. }
    assert (Hsame : prop_get (if truthy (prop_get st p) then st else <[p:=value c]> st) prop
                    = prop_get st prop).
    { destruct (truthy (prop_get st p)); [reflexivity|].
      unfold prop_get. now rewrite lookup_insert_ne. }
    now rewrite Hsame.
Qed.

End TransactorEdges.

(** [width('wide', 5, 7)] with [isNumber]: the preset hook is called with 5
    and 5 is committed. *)
Lemma setter_commits_first_accepted_witness :
  Transactor.trace
    (Transactor.accessor "width" (Some Transactor.number_with_preset)
       [VStr "wide"; VNum (Fin 5); VNum (Fin 7)] Transactor.width_world).2
  = [Transactor.PresetCalled (VNum (Fin 5)); Transactor.Committed "width" (VNum (Fin 5))].
Proof.
  apply (setter_commits_first_accepted "width" Transactor.number_with_preset
           Transactor.isNumber [VStr "wide"] (VNum (Fin 5)) [VNum (Fin 7)]
           Transactor.width_world).
  - reflexivity.
  - reflexivity.
  - reflexivity.
  - intros r [<- | []]. reflexivity.
  - reflexivity.
Defined.

(** [setter('wide', 5)] on a [size] that holds [[1, 2]] and whose positions
    are checked by [isNumber]: the string is dropped, 5 moves to the first
    position and [[5, 2]] is stored. *)
Lemma spread_setter_shifts_witness :
  exists ref,
    Transactor.prop_get
      (Transactor.store
         (Transactor.accessor "size" (Some Transactor.spread_numbers)
            [VStr "wide"; VNum (Fin 5)] Transactor.size_world).2) "size"
    = VArr ref [VNum (Fin 5); VNum (Fin 2)].
Proof.
  destruct (spread_setter_shifts "size" Transactor.spread_numbers
              (fun i => nth i [Some Transactor.isNumber; Some Transactor.isNumber] None)
              [VStr "wide"; VNum (Fin 5)] [VNum (Fin 1); VNum (Fin 2)] 0
              Transactor.size_world)
    as (_ & ref & stored & Hget & Hlen & Hpos).
  - reflexivity.
  - reflexivity.
  - reflexivity.
  - intros [|[|[|i]]]; reflexivity.
  - discriminate.
  - reflexivity.
  - exists ref.
    destruct stored as [|a [|b [|c stored]]]; try discriminate Hlen.
    destruct (Hpos 0) as [_ Hfirst]. destruct (Hpos 1) as [Hsecond _].
    simpl in Hfirst, Hsecond. rewrite Hfirst in Hget by discriminate.
    rewrite (Hsecond eq_refl) in Hget. exact Hget.
Defined.


(** A model that holds 0 for [width] and 7 for [height], and options that
    give both the default 100: [width] is reset, [height] is kept. *)
Lemma transactor_defaults_witness :
  Transactor.prop_get
    (Transactor.transactor
       [("width", {| Transactor.value := VNum (Fin 100); Transactor.meta := None |});
        ("height", {| Transactor.value := VNum (Fin 100); Transactor.meta := None |})]
       (Some {["width" := VNum (Fin 0); "height" := VNum (Fin 7)]})) "width"
  = VNum (Fin 100).
Proof.
  destruct (transactor_defaults
              [("width", {| Transactor.value := VNum (Fin 100); Transactor.meta := None |});
               ("height", {| Transactor.value := VNum (Fin 100); Transactor.meta := None |})]
              (Some {["width" := VNum (Fin 0); "height" := VNum (Fin 7)]}) "width")
    as [Hdefault _].
  - apply NoDup_ListNoDup. repeat constructor; simpl; intuition discriminate.
  - apply (Hdefault {| Transactor.value := VNum (Fin 100); Transactor.meta := None |}).
    now left.
Defined.

(** ** Extreme points *)

Section PointsProperties.

Variable Point : Type.
Variable read : Point -> num.

Import Points.

Local Abbreviation scan := (Points.scan Point read).
Local Abbreviation getExtremePoint := (Points.getExtremePoint Point read).
Local Abbreviation getMinPoint := (Points.getMinPoint Point read).
Local Abbreviation getMaxPoint := (Points.getMaxPoint Point read).

Lemma num_lt_irrefl (a : num) : num_lt a a = false.
Proof. destruct a; simpl; try reflexivity. apply Z.ltb_irrefl. Qed.

Lemma num_lt_trans (a b c : num) :
  num_lt a b = true -> num_lt b c = true -> num_lt a c = true.
Proof.
  destruct a, b, c; simpl; try discriminate; try reflexivity.
  rewrite !Z.ltb_lt. lia.
Qed.

(** The loop keeps the current point unless a point of the list is
    strictly better than the current value; it then answers the first of the
    best points of the list.  [better] is the comparison that the mode
    selects. *)
Lemma scan_spec (minOrMax : string) (better : num -> num -> bool) :
  (forall val cur,
     (if String.eqb minOrMax "min" then num_lt val cur else num_lt cur val) = better val cur) ->
  (forall a, better a a = false) ->
  (forall a b c, better a b = true -> better b c = true -> better a c = true) ->
  forall points cur extremePoint,
    (scan minOrMax points cur extremePoint = extremePoint
     /\ forall q, In q points -> better (read q) cur = false)
    \/ (exists i p,
          points !! i = Some p
          /\ scan minOrMax points cur extremePoint = Some p
          /\ better (read p) cur = true
          /\ (forall q, In q points -> better (read q) (read p) = false)
          /\ (forall j q, j < i -> points !! j = Some q -> read q <> read p)).
Proof.
  intros Hbetter Hirr Htrans.
  induction points as [|point rest IH]; intros cur extremePoint.
  - left. split; [reflexivity | intros q []].
  - cbn [Points.scan]. rewrite Hbetter.
    destruct (better (read point) cur) eqn:Hpoint.
    + right. destruct (IH (read point) (Some point))
        as [[Hkeep Hnone] | (i & p & Hi & Hscan & Hp & Hbest & Hfirst)].
      * exists 0, point. repeat split; try assumption.
        -- intros q [<- | Hq]; [apply Hirr | now apply Hnone].
        -- intros j q Hj. lia.
      * exists (S i), p. repeat split; try assumption.
        -- now apply (Htrans _ (read point)).
        -- intros q [<- | Hq]; [|now apply Hbest].
           destruct (better (read point) (read p)) eqn:Hqp; [|reflexivity].
           pose proof (Htrans _ _ _ Hqp Hp) as Hcycle. now rewrite Hirr in Hcycle.
        -- intros [|j] q Hj Hq; [|apply (Hfirst j); [lia | exact Hq]].
           inversion Hq; subst q. intros Heq. rewrite Heq, Hirr in Hp. discriminate.
    + destruct (IH cur extremePoint)
        as [[Hkeep Hnone] | (i & p & Hi & Hscan & Hp & Hbest & Hfirst)].
      * left. split; [exact Hkeep|]. intros q [<- | Hq]; [exact Hpoint | now apply Hnone].
      * right. exists (S i), p. repeat split; try assumption.
        -- intros q [<- | Hq]; [|now apply Hbest].
           destruct (better (read point) (read p)) eqn:Hqp; [|reflexivity].
           now rewrite (Htrans _ _ _ Hqp Hp) in Hpoint.
        -- intros [|j] q Hj Hq; [|apply (Hfirst j); [lia | exact Hq]].
           inversion Hq; subst q. intros Heq. rewrite Heq, Hp in Hpoint. discriminate.
Qed.

(** [getMinPoint] answers the first of the points of least value, among
    the points whose value is a number below [Infinity]; it answers
    [undefined] when there is no such point, as for an empty array. *)
Theorem getMinPoint_spec (points : list Point) :
  match getMinPoint points with
  | Some p =>
      exists i, points !! i = Some p
        /\ num_lt (read p) PosInf = true
        /\ (forall q, In q points -> num_lt (read q) (read p) = false)
        /\ (forall j q, j < i -> points !! j = Some q -> read q <> read p)
  | None => forall q, In q points -> num_lt (read q) PosInf = false
  end.
Proof.
  unfold Points.getMinPoint, Points.getExtremePoint. cbn [String.eqb Ascii.eqb Bool.eqb].
  destruct (scan_spec "min" num_lt (fun _ _ => eq_refl) num_lt_irrefl num_lt_trans
              points PosInf None)
    as [[-> Hnone] | (i & p & Hi & -> & Hp & Hbest & Hfirst)].
  - exact Hnone.
  - now exists i.
Qed.

(** [getMaxPoint] answers the first of the points of greatest value, among
    the points whose value is a number above [-Infinity]; it answers
    [undefined] when there is no such point. *)
Theorem getMaxPoint_spec (points : list Point) :
  match getMaxPoint points with
  | Some p =>
      exists i, points !! i = Some p
        /\ num_lt NegInf (read p) = true
        /\ (forall q, In q points -> num_lt (read p) (read q) = false)
        /\ (forall j q, j < i -> points !! j = Some q -> read q <> read p)
  | None => forall q, In q points -> num_lt NegInf (read q) = false
  end.
Proof.
  unfold Points.getMaxPoint, Points.getExtremePoint. cbn [String.eqb Ascii.eqb Bool.eqb].
  destruct (scan_spec "max" (fun a b => num_lt b a) (fun _ _ => eq_refl)
              num_lt_irrefl (fun a b c Hab Hbc => num_lt_trans c b a Hbc Hab)
              points NegInf None)
    as [[-> Hnone] | (i & p & Hi & -> & Hp & Hbest & Hfirst)].
  - exact Hnone.
  - now exists i.
Qed.

(** With a mode that is neither ['min'] nor ['max'], [getExtremePoint]
    looks for a value above [Infinity] and answers [undefined] for every
    array. *)
Theorem getExtremePoint_unknown_mode (points : list Point) (minOrMax : string) :
  minOrMax <> "min" -> minOrMax <> "max" ->
  getExtremePoint points minOrMax = None.
Proof.
  intros Hmin Hmax. unfold Points.getExtremePoint.
  destruct (String.eqb_spec minOrMax "max") as [|_]; [contradiction|].
  induction points as [|point rest IH]; [reflexivity|].
  cbn [Points.scan]. destruct (String.eqb_spec minOrMax "min") as [|_]; [contradiction|].
  destruct (read point); exact IH.
Qed.

End PointsProperties.

(** [getExtremePoint(points, 'y', 'MAX')]. *)
Lemma getExtremePoint_unknown_mode_witness :
  Points.getExtremePoint Z (fun z => Fin z) [3; 1; 2]%Z "MAX" = None.
Proof.
  apply (getExtremePoint_unknown_mode Z (fun z => Fin z) [3; 1; 2]%Z "MAX"); discriminate.
Defined.

(** The least and the greatest of 3, 1, 2, 1, 3. *)
Example getMinPoint_first :
  Points.getMinPoint (string * Z) (fun p => Fin p.2)
    [("a", 3); ("b", 1); ("c", 2); ("d", 1); ("e", 3)]%Z
  = Some ("b", 1%Z)
  /\ Points.getMaxPoint (string * Z) (fun p => Fin p.2)
       [("a", 3); ("b", 1); ("c", 2); ("d", 1); ("e", 3)]%Z
     = Some ("a", 3%Z).
Proof. split; reflexivity. Qed.

(** ** Nearest value *)

Section SearchProperties.

Import Search.

Lemma at_index_Some (arr : list Z) (i : Z) :
  (0 <= i < Z.of_nat (length arr))%Z -> exists x, at_index arr i = Some x.
Proof.
  intros Hi. unfold at_index. destruct (Z.ltb_spec i 0); [lia|].
  apply lookup_lt_is_Some_2. lia.
Qed.

Lemma at_index_lookup (arr : list Z) (j : nat) : at_index arr (Z.of_nat j) = arr !! j.
Proof.
  unfold at_index. destruct (Z.ltb_spec (Z.of_nat j) 0); [lia|]. now rewrite Nat2Z.id.
Qed.

Lemma at_index_range (arr : list Z) (i x : Z) :
  at_index arr i = Some x -> (0 <= i < Z.of_nat (length arr))%Z.
Proof.
  unfold at_index. destruct (Z.ltb_spec i 0); [discriminate|].
  intros Hx. apply lookup_lt_Some in Hx. lia.
Qed.

Lemma ascending_lt (arr : list Z) (i j x y : Z) :
  ascending arr -> (i < j)%Z -> at_index arr i = Some x -> at_index arr j = Some y ->
  (x < y)%Z.
Proof.
  intros Hasc Hij Hx Hy.
  pose proof (at_index_range arr i x Hx). pose proof (at_index_range arr j y Hy).
  unfold at_index in Hx, Hy.
  destruct (Z.ltb_spec i 0); [lia|]. destruct (Z.ltb_spec j 0); [lia|].
  apply (Hasc (Z.to_nat i) (Z.to_nat j)); [lia | exact Hx | exact Hy].
Qed.

Lemma ascending_le (arr : list Z) (i j x y : Z) :
  ascending arr -> (i <= j)%Z -> at_index arr i = Some x -> at_index arr j = Some y ->
  (x <= y)%Z.
Proof.
  intros Hasc Hij Hx Hy. destruct (Z.eq_dec i j) as [-> | Hne].
  - rewrite Hx in Hy. inversion Hy. lia.
  - assert (x < y)%Z by (apply (ascending_lt arr i j); [assumption | lia | assumption..]). lia.
Qed.

(** Below [2 ^ 53] nothing is rounded. *)
Lemma to_double_exact (z : Z) : (Z.abs z < 2 ^ 53)%Z -> to_double z = Fin z.
Proof. intros Hz. unfold to_double. now destruct (Z.ltb_spec (Z.abs z) (2 ^ 53)); [|lia]. Qed.

(** Distances between safe integers are exact. *)
Lemma distance_safe (arr : list Z) (i value x : Z) :
  Forall safe arr -> safe value ->
  at_index arr i = Some x ->
  distance arr i value = Fin (Z.abs (x - value)).
Proof.
  intros Harr Hvalue Hx. unfold distance. rewrite Hx.
  assert (Hsafe : safe x).
  { unfold at_index in Hx. destruct (i <? 0)%Z; [discriminate|].
    rewrite Forall_forall in Harr. apply Harr. now apply list_elem_of_lookup_2 in Hx. }
  unfold safe in *. rewrite to_double_exact; [reflexivity|]. lia.
Qed.

(** The loop ends with [high] between the [low] and [high] it started
    from. *)
Lemma narrow_bounds (arr : list Z) (value : Z) (fuel : nat) (low high : Z) :
  (low <= high)%Z -> (low <= narrow arr value fuel low high <= high)%Z.
Proof.
  revert low high. induction fuel as [|fuel IH]; intros low high Hle; cbn [narrow]; [lia|].
  destruct (Z.ltb_spec low high) as [Hlt|]; [|lia].
  assert (Hmid : (low <= (low + high) / 2 < high)%Z) by (Z.div_mod_to_equations; lia).
  destruct (not_farther _ _).
  - specialize (IH ((low + high) / 2 + 1)%Z high). lia.
  - specialize (IH low ((low + high) / 2)%Z). lia.
Qed.

(** On a strictly ascending array of safe integers, with enough turns, the
    loop ends on an index of the interval whose value is nearest to [value]. *)
Lemma narrow_nearest (arr : list Z) (value : Z) :
  Forall safe arr -> safe value ->
  ascending arr ->
  forall (fuel : nat) (low high : Z),
    (0 <= low <= high)%Z -> (high < Z.of_nat (length arr))%Z ->
    (high - low <= Z.of_nat fuel)%Z ->
    forall j x y, (low <= j <= high)%Z ->
      at_index arr (narrow arr value fuel low high) = Some x ->
      at_index arr j = Some y ->
      (Z.abs (x - value) <= Z.abs (y - value))%Z.
Proof.
  intros Hsafe Hvalue Hasc.
  induction fuel as [|fuel IH]; intros low high Hlow Hhigh Hfuel j x y Hj Hx Hy.
  - cbn [narrow] in Hx. assert (j = high) as -> by lia. rewrite Hx in Hy. inversion Hy. lia.
  - cbn [narrow] in Hx. destruct (Z.ltb_spec low high) as [Hlt|].
    2:{ assert (j = high) as -> by lia. rewrite Hx in Hy. inversion Hy. lia. }
    set (mid := ((low + high) / 2)%Z) in *.
    assert (Hmid : (low <= mid < high)%Z) by (subst mid; Z.div_mod_to_equations; lia).
    destruct (at_index_Some arr mid) as [ym Hym]; [lia|].
    destruct (at_index_Some arr (mid + 1)) as [yn Hyn]; [lia|].
    assert (Hstep : (ym < yn)%Z) by (apply (ascending_lt arr mid (mid + 1)); [assumption | lia | assumption..]).
    rewrite (distance_safe arr mid value ym Hsafe Hvalue Hym),
      (distance_safe arr (mid + 1) value yn Hsafe Hvalue Hyn) in Hx.
    unfold not_farther in Hx. cbn [num_le] in Hx.
    destruct (Z.leb_spec (Z.abs (yn - value)) (Z.abs (ym - value))) as [Hnear | Hfar].
    + assert (Hbest : (Z.abs (x - value) <= Z.abs (yn - value))%Z).
      { apply (IH (mid + 1)%Z high) with (j := (mid + 1)%Z); try assumption; lia. }
      destruct (Z_le_gt_dec j mid) as [Hleft | Hright].
      * assert (y <= ym)%Z by (apply (ascending_le arr j mid); [assumption | lia | assumption..]).
        lia.
      * apply (IH (mid + 1)%Z high) with (j := j); try assumption; lia.
    + assert (Hbest : (Z.abs (x - value) <= Z.abs (ym - value))%Z).
      { apply (IH low mid) with (j := mid); try assumption; lia. }
      destruct (Z_le_gt_dec j mid) as [Hleft | Hright].
      * apply (IH low mid) with (j := j); try assumption; lia.
      * assert (yn <= y)%Z by (apply (ascending_le arr (mid + 1) j); [assumption | lia | assumption..]).
        lia.
Qed.

(** [getClosestIndexOf] answers -1 for an empty array and otherwise an
    index of the array, whatever [value] and [side], sorted array or not. *)
Theorem getClosestIndexOf_bounds (arr : list Z) (value : Z) (side : Value) :
  match arr with
  | [] => getClosestIndexOf arr value side = (-1)%Z
  | _ => (0 <= getClosestIndexOf arr value side < Z.of_nat (length arr))%Z
  end.
Proof.
  destruct arr as [|a arr].
  { unfold getClosestIndexOf. cbn [length narrow]. now destruct (negb (truthy side)). }
  set (full := a :: arr). unfold getClosestIndexOf.
  assert (Hlen : (0 < Z.of_nat (length full))%Z) by (cbn; lia).
  pose proof (narrow_bounds full value (length full) 0 (Z.of_nat (length full) - 1)) as Hh.
  set (h := narrow full value (length full) 0 (Z.of_nat (length full) - 1)) in *.
  specialize (Hh ltac:(lia)).
  destruct (negb (truthy side)); [lia|].
  destruct (at_index full h) as [x|];
    repeat match goal with
           | |- context [Z.eqb ?a ?b] => destruct (Z.eqb_spec a b)
           | |- context [Z.ltb ?a ?b] => destruct (Z.ltb_spec a b)
           | |- context [strict_eq ?a ?b] => destruct (strict_eq a b)
           end; lia.
Qed.

(** On a strictly ascending array of safe integers, for a safe [value] and
    without [side], [getClosestIndexOf] answers the index of a value nearest
    to [value]: no value of the array is nearer.  Between safe integers no
    distance is rounded. *)
Theorem getClosestIndexOf_nearest (arr : list Z) (value : Z) (side : Value) :
  Forall safe arr -> safe value ->
  ascending arr ->
  truthy side = false ->
  forall j y, arr !! j = Some y ->
    exists x, at_index arr (getClosestIndexOf arr value side) = Some x
      /\ (Z.abs (x - value) <= Z.abs (y - value))%Z.
Proof.
  intros Hsafe Hvalue Hasc Hside j y Hy. unfold getClosestIndexOf. rewrite Hside. cbn [negb].
  assert (Hj : j < length arr) by (now apply lookup_lt_Some in Hy).
  pose proof (narrow_bounds arr value (length arr) 0 (Z.of_nat (length arr) - 1)
                ltac:(lia)) as Hh.
  destruct (at_index_Some arr (narrow arr value (length arr) 0 (Z.of_nat (length arr) - 1)))
    as [x Hx]; [lia|].
  exists x. split; [exact Hx|].
  apply (narrow_nearest arr value Hsafe Hvalue Hasc (length arr) 0 (Z.of_nat (length arr) - 1))
    with (j := Z.of_nat j); try lia; [exact Hx|].
  now rewrite at_index_lookup.
Qed.

(** On a strictly ascending array of safe integers of which some value is
    not above the safe [value], [getClosestIndexOf] with the side ['left']
    answers the index of the greatest of the values that are not above
    [value]. *)
Theorem getClosestIndexOf_left (arr : list Z) (value : Z) :
  Forall safe arr -> safe value ->
  ascending arr ->
  (exists j y, arr !! j = Some y /\ (y <= value)%Z) ->
  exists x, at_index arr (getClosestIndexOf arr value (VStr "left")) = Some x
    /\ (x <= value)%Z
    /\ forall j y, arr !! j = Some y -> (y <= value)%Z -> (y <= x)%Z.
Proof.
  intros Hsafe Hvalue Hasc (j0 & y0 & Hy0 & Hle0). unfold getClosestIndexOf.
  cbn [truthy negb String.eqb strict_eq Ascii.eqb Bool.eqb].
  assert (Hj0 : j0 < length arr) by (now apply lookup_lt_Some in Hy0).
  pose proof (narrow_bounds arr value (length arr) 0 (Z.of_nat (length arr) - 1)
                ltac:(lia)) as Hh.
  pose proof (narrow_nearest arr value Hsafe Hvalue Hasc (length arr) 0
                (Z.of_nat (length arr) - 1) ltac:(lia) ltac:(lia) ltac:(lia)) as Hnear.
  set (h := narrow arr value (length arr) 0 (Z.of_nat (length arr) - 1)) in *.
  destruct (at_index_Some arr h) as [x Hx]; [lia|]. rewrite Hx.
  assert (Hall : forall j y, arr !! j = Some y ->
            at_index arr (Z.of_nat j) = Some y
            /\ (0 <= Z.of_nat j <= Z.of_nat (length arr) - 1)%Z
            /\ (Z.abs (x - value) <= Z.abs (y - value))%Z).
  { intros j y Hy. pose proof (lookup_lt_Some _ _ _ Hy).
    assert (Hat : at_index arr (Z.of_nat j) = Some y) by now rewrite at_index_lookup.
    repeat split; try lia; [exact Hat|].
    apply (Hnear (Z.of_nat j) x y); [lia | exact Hx | exact Hat]. }
  destruct (Z.eqb_spec x value) as [-> | Hne].
  - exists value. split; [exact Hx|]. split; [lia | auto].
  - destruct (Z.ltb_spec value x) as [Habove | Hbelow].
    + destruct (Z.eqb_spec h 0) as [Hzero | Hpos].
      * exfalso. destruct (Hall j0 y0 Hy0) as (Hat & Hrange & _).
        assert (x <= y0)%Z by (apply (ascending_le arr h (Z.of_nat j0)); [assumption | lia | assumption..]).
        lia.
      * destruct (at_index_Some arr (h - 1)) as [w Hw]; [lia|].
        exists w. split; [exact Hw|].
        assert (Hwx : (w < x)%Z) by (apply (ascending_lt arr (h - 1) h); [assumption | lia | assumption..]).
        assert (Hwnear : (Z.abs (x - value) <= Z.abs (w - value))%Z).
        { apply (Hnear (h - 1)%Z x w); [lia | exact Hx | exact Hw]. }
        split; [lia|]. intros j y Hy Hyv. destruct (Hall j y Hy) as (Hat & Hrange & _).
        destruct (Z_le_gt_dec (Z.of_nat j) (h - 1)) as [Hleft | Hright].
        -- apply (ascending_le arr (Z.of_nat j) (h - 1)); assumption.
        -- assert (x <= y)%Z by (apply (ascending_le arr h (Z.of_nat j)); [assumption | lia | assumption..]).
           lia.
    + assert (Hresult : (if (h =? Z.of_nat (length arr) - 1)%Z then h else h) = h)
        by now destruct (h =? Z.of_nat (length arr) - 1)%Z.
      rewrite Hresult. exists x. split; [exact Hx|]. split; [lia|].
      intros j y Hy Hyv. destruct (Hall j y Hy) as (Hat & Hrange & Hfar).
      destruct (Z_le_gt_dec (Z.of_nat j) h) as [Hleft | Hright].
      * apply (ascending_le arr (Z.of_nat j) h); assumption.
      * destruct (at_index_Some arr (h + 1)) as [w Hw]; [lia|].
        assert (Hxw : (x < w)%Z) by (apply (ascending_lt arr h (h + 1)); [assumption | lia | assumption..]).
        assert (Hwy : (w <= y)%Z) by (apply (ascending_le arr (h + 1) (Z.of_nat j)); [assumption | lia | assumption..]).
        assert (Hwfar : (Z.abs (x - value) <= Z.abs (w - value))%Z).
        { apply (Hnear (h + 1)%Z x w); [lia | exact Hx | exact Hw]. }
        lia.
Qed.

(** On a strictly ascending array of safe integers of which some value is
    not below the safe [value], [getClosestIndexOf] with a side other than
    ['left'] answers the index of the least of the values that are not below
    [value]. *)
Theorem getClosestIndexOf_right (arr : list Z) (value : Z) (side : Value) :
  Forall safe arr -> safe value ->
  ascending arr ->
  truthy side = true ->
  strict_eq side (VStr "left") = false ->
  (exists j y, arr !! j = Some y /\ (value <= y)%Z) ->
  exists x, at_index arr (getClosestIndexOf arr value side) = Some x
    /\ (value <= x)%Z
    /\ forall j y, arr !! j = Some y -> (value <= y)%Z -> (x <= y)%Z.
Proof.
  intros Hsafe Hvalue Hasc Htruthy Hside (j0 & y0 & Hy0 & Hle0). unfold getClosestIndexOf.
  rewrite Htruthy, Hside. cbn [negb].
  assert (Hj0 : j0 < length arr) by (now apply lookup_lt_Some in Hy0).
  pose proof (narrow_bounds arr value (length arr) 0 (Z.of_nat (length arr) - 1)
                ltac:(lia)) as Hh.
  pose proof (narrow_nearest arr value Hsafe Hvalue Hasc (length arr) 0
                (Z.of_nat (length arr) - 1) ltac:(lia) ltac:(lia) ltac:(lia)) as Hnear.
  set (h := narrow arr value (length arr) 0 (Z.of_nat (length arr) - 1)) in *.
  destruct (at_index_Some arr h) as [x Hx]; [lia|]. rewrite Hx.
  assert (Hall : forall j y, arr !! j = Some y ->
            at_index arr (Z.of_nat j) = Some y
            /\ (0 <= Z.of_nat j <= Z.of_nat (length arr) - 1)%Z).
  { intros j y Hy. pose proof (lookup_lt_Some _ _ _ Hy).
    split; [now rewrite at_index_lookup | lia]. }
  destruct (Z.eqb_spec x value) as [-> | Hne].
  - exists value. split; [exact Hx|]. split; [lia | auto].
  - destruct (Z.ltb_spec value x) as [Habove | Hbelow].
    + assert (Hresult : (if (h =? 0)%Z then h else h) = h) by now destruct (h =? 0)%Z.
      rewrite Hresult. exists x. split; [exact Hx|]. split; [lia|].
      intros j y Hy Hyv. destruct (Hall j y Hy) as (Hat & Hrange).
      destruct (Z_le_gt_dec h (Z.of_nat j)) as [Hright | Hleft].
      * apply (ascending_le arr h (Z.of_nat j)); assumption.
      * destruct (at_index_Some arr (h - 1)) as [w Hw]; [lia|].
        assert (Hwx : (w < x)%Z) by (apply (ascending_lt arr (h - 1) h); [assumption | lia | assumption..]).
        assert (Hyw : (y <= w)%Z) by (apply (ascending_le arr (Z.of_nat j) (h - 1)); [assumption | lia | assumption..]).
        assert (Hwfar : (Z.abs (x - value) <= Z.abs (w - value))%Z).
        { apply (Hnear (h - 1)%Z x w); [lia | exact Hx | exact Hw]. }
        lia.
    + destruct (Z.eqb_spec h (Z.of_nat (length arr) - 1)) as [Hlast | Hinner].
      * exfalso. destruct (Hall j0 y0 Hy0) as (Hat & Hrange).
        assert (y0 <= x)%Z by (apply (ascending_le arr (Z.of_nat j0) h); [assumption | lia | assumption..]).
        lia.
      * destruct (at_index_Some arr (h + 1)) as [w Hw]; [lia|].
        exists w. split; [exact Hw|].
        assert (Hxw : (x < w)%Z) by (apply (ascending_lt arr h (h + 1)); [assumption | lia | assumption..]).
        assert (Hwfar : (Z.abs (x - value) <= Z.abs (w - value))%Z).
        { apply (Hnear (h + 1)%Z x w); [lia | exact Hx | exact Hw]. }
        split; [lia|]. intros j y Hy Hyv. destruct (Hall j y Hy) as (Hat & Hrange).
        destruct (Z_le_gt_dec (h + 1) (Z.of_nat j)) as [Hright | Hleft].
        -- apply (ascending_le arr (h + 1) (Z.of_nat j)); assumption.
        -- assert (y <= x)%Z by (apply (ascending_le arr (Z.of_nat j) h); [assumption | lia | assumption..]).
           lia.
Qed.

End SearchProperties.

(** The array [[1, 4, 9, 16]] is strictly ascending. *)
Lemma squares_ascending : Search.ascending [1; 4; 9; 16]%Z.
Proof.
  intros [|[|[|[|i]]]] [|[|[|[|j]]]] x y Hij Hx Hy; simpl in Hx, Hy;
    try discriminate; try lia; inversion Hx; inversion Hy; lia.
Defined.

(** Its values are safe integers. *)
Lemma squares_safe : Forall Search.safe [1; 4; 9; 16]%Z.
Proof. repeat constructor; unfold Search.safe; lia. Defined.

(** The value of [[1, 4, 9, 16]] nearest to 6 is not farther from 6 than 9
    is. *)
Lemma getClosestIndexOf_nearest_witness :
  exists x, Search.at_index [1; 4; 9; 16]%Z
              (Search.getClosestIndexOf [1; 4; 9; 16]%Z 6 VUndefined) = Some x
    /\ (Z.abs (x - 6) <= Z.abs (9 - 6))%Z.
Proof.
  apply (getClosestIndexOf_nearest [1; 4; 9; 16]%Z 6 VUndefined squares_safe ltac:(unfold Search.safe; lia)
           squares_ascending eq_refl 2).
  reflexivity.
Defined.

(** In [[1, 4, 9, 16]], to the left of 8. *)
Lemma getClosestIndexOf_left_witness :
  exists x, Search.at_index [1; 4; 9; 16]%Z
              (Search.getClosestIndexOf [1; 4; 9; 16]%Z 8 (VStr "left")) = Some x
    /\ (x <= 8)%Z
    /\ forall j y, [1; 4; 9; 16]%Z !! j = Some y -> (y <= 8)%Z -> (y <= x)%Z.
Proof.
  apply (getClosestIndexOf_left [1; 4; 9; 16]%Z 8 squares_safe ltac:(unfold Search.safe; lia)
           squares_ascending).
  exists 0, 1%Z. split; [reflexivity | lia].
Defined.

(** In [[1, 4, 9, 16]], to the right of 5. *)
Lemma getClosestIndexOf_right_witness :
  exists x, Search.at_index [1; 4; 9; 16]%Z
              (Search.getClosestIndexOf [1; 4; 9; 16]%Z 5 (VStr "right")) = Some x
    /\ (5 <= x)%Z
    /\ forall j y, [1; 4; 9; 16]%Z !! j = Some y -> (5 <= y)%Z -> (x <= y)%Z.
Proof.
  apply (getClosestIndexOf_right [1; 4; 9; 16]%Z 5 (VStr "right") squares_safe
           ltac:(unfold Search.safe; lia) squares_ascending).
  - reflexivity.
  - reflexivity.
  - exists 3, 16%Z. split; [reflexivity | lia].
Defined.

(** What the search answers on [[1, 4, 9, 16]]; and on [[0, 10, 10]], which
    is not strictly ascending, it misses the nearest value. *)
Example getClosestIndexOf_examples :
  Search.getClosestIndexOf [1; 4; 9; 16]%Z 6 VUndefined = 1%Z
  /\ Search.getClosestIndexOf [1; 4; 9; 16]%Z 8 (VStr "left") = 1%Z
  /\ Search.getClosestIndexOf [1; 4; 9; 16]%Z 5 (VStr "right") = 2%Z
  /\ Search.getClosestIndexOf [0; 10; 10]%Z 1 VUndefined = 2%Z.
Proof. repeat split; vm_compute; reflexivity. Qed.

(** Rounding: [2 ^ 53 + 1] is not a Number, and the nearest one is
    [2 ^ 53]; a tie goes to the even side.  So, far from the array, two
    distances that differ are found equal, and the search misses the nearest
    value: 1 is as far from [- 2 ^ 53] as 0 is, once rounded. *)
Example to_double_examples :
  to_double (2 ^ 53 + 1) = Fin (2 ^ 53)
  /\ to_double (2 ^ 53 + 3) = Fin (2 ^ 53 + 4)
  /\ to_double (- (2 ^ 54 + 2)) = Fin (- 2 ^ 54)
  /\ to_double (2 ^ 1024 - 2 ^ 970) = PosInf
  /\ to_double (2 ^ 1024 - 2 ^ 970 - 1) = Fin (2 ^ 1024 - 2 ^ 971)
  /\ Search.getClosestIndexOf [0; 1]%Z (- 2 ^ 53) VUndefined = 1%Z
  /\ Search.getClosestIndexOf [0; 1]%Z (- 2 ^ 53) (VStr "right") = 1%Z
  /\ Search.getClosestIndexOf [- 2 ^ 54; 0; 1]%Z (- 2 ^ 53) (VStr "left") = 1%Z.
Proof. repeat split; vm_compute; reflexivity. Qed.

(** ** Text *)

Section TextProperties.

Import Text.

Lemma occurs_app (c : ascii) (s t : string) :
  occurs c (s +:+ t) = occurs c s || occurs c t.
Proof. induction s as [|c' s IH]; simpl; [reflexivity|]. now rewrite IH, orb_assoc. Qed.

(** No match starts in a string without digits. *)
Lemma first_match_skip (pre s : string) :
  (forall c, occurs c pre = true -> is_digit c = false) ->
  first_match (pre +:+ s) = first_match s.
Proof.
  induction pre as [|c pre IH]; intros Hpre; [reflexivity|].
  simpl. rewrite (Hpre c).
  - apply IH. intros c' Hc'. apply Hpre. simpl. rewrite Hc'. apply orb_true_r.
  - simpl. now rewrite Ascii.eqb_refl.
Qed.

(** [intSanitizer] returns [null] exactly for the strings that hold no
    digit; a string that holds a digit always gives a number. *)
Theorem intSanitizer_null_iff (val : string) :
  intSanitizer val = VNull <-> forall c, occurs c val = true -> is_digit c = false.
Proof.
  unfold intSanitizer. induction val as [|c val IH].
  - split; [intros _ c Hc; discriminate Hc | reflexivity].
  - cbn [first_match]. destruct (is_digit c) eqn:Hc.
    + destruct (take_digits (String c val)) as [digits after]. split; [discriminate|].
      intros Hnone. rewrite (Hnone c) in Hc; [discriminate|].
      simpl. now rewrite Ascii.eqb_refl.
    + rewrite IH. split.
      * intros Hval c' Hc'. simpl in Hc'.
        destruct (Ascii.eqb_spec c' c) as [Heq | Hne]; [now rewrite Heq | now apply Hval].
      * intros Hall c' Hc'. apply Hall. simpl. rewrite Hc'. apply orb_true_r.
Qed.

Lemma append_String (c : ascii) (s t : string) : String c s +:+ t = String c (s +:+ t).
Proof. reflexivity. Qed.

Lemma append_empty (t : string) : EmptyString +:+ t = t.
Proof. reflexivity. Qed.

Ltac decimal_digit :=
  cbn [NilEmpty.string_of_uint]; rewrite ?append_String, ?append_empty;
  cbn [take_digits read_digits Nat.of_uint_acc];
  match goal with
  | |- context [is_digit ?c] => change (is_digit c) with true
  end;
  try match goal with
  | |- context [digit_value ?c] =>
      let v := eval vm_compute in (digit_value c) in change (digit_value c) with v
  end.

(** The greedy run of digits takes exactly a printed number, when no digit
    follows. *)
Lemma take_digits_decimal (d : Decimal.uint) (post : string) :
  no_digit_ahead post ->
  take_digits (NilEmpty.string_of_uint d +:+ post) = (NilEmpty.string_of_uint d, post).
Proof.
  intros Hpost. induction d; try (decimal_digit; now rewrite IHd).
  cbn [NilEmpty.string_of_uint]. rewrite append_empty.
  destruct post as [|c post]; [reflexivity|].
  simpl in Hpost. cbn [take_digits]. now rewrite Hpost.
Qed.

(** Reading a printed number continues the accumulator as [Nat.of_uint_acc]
    does. *)
Lemma read_digits_decimal (d : Decimal.uint) (acc : nat) (t : string) :
  read_digits (Z.of_nat acc) (NilEmpty.string_of_uint d +:+ t)
  = read_digits (Z.of_nat (Nat.of_uint_acc d acc)) t.
Proof.
  revert acc. induction d; intros acc; [reflexivity|..];
    decimal_digit; cbv iota;
    match goal with
    | |- read_digits ?a _ = read_digits (Z.of_nat (Nat.of_uint_acc _ ?b)) _ =>
        replace a with (Z.of_nat b) by (rewrite Nat.tail_mul_spec; lia)
    end; apply IHd.
Qed.

Lemma read_digits_px (acc : Z) (s : string) : read_digits acc (take_px s) = acc.
Proof.
  destruct s as [|c1 [|c2 s]]; try reflexivity. cbn [take_px].
  destruct (Ascii.eqb_spec c1 "p") as [-> | _]; [|reflexivity].
  destruct (Ascii.eqb c2 "x"); reflexivity.
Qed.

Lemma to_uint_nonnil (n : nat) : Nat.to_uint n <> Decimal.Nil.
Proof.
  rewrite <- (DecimalNat.Unsigned.of_to n) at 1. rewrite DecimalNat.Unsigned.to_of.
  apply DecimalFacts.unorm_nonnil.
Qed.

(** [intSanitizer] reads the first number written in the string: what
    comes before it (a sign, for one), the [px] and whatever follows are
    dropped.  The number is written in decimal, as [Nat.to_uint] prints it,
    and is below [2 ^ 53]: a larger one would be rounded. *)
Theorem intSanitizer_decimal (pre post : string) (n : nat) :
  (Z.of_nat n < 2 ^ 53)%Z ->
  (forall c, occurs c pre = true -> is_digit c = false) ->
  no_digit_ahead post ->
  intSanitizer (pre +:+ NilEmpty.string_of_uint (Nat.to_uint n) +:+ post)
  = VNum (Fin (Z.of_nat n)).
Proof.
  intros Hsmall Hpre Hpost. rewrite <- (to_double_exact (Z.of_nat n)) by lia.
  unfold intSanitizer. rewrite (first_match_skip pre _ Hpre).
  pose proof (to_uint_nonnil n) as Hnil.
  pose proof (take_digits_decimal (Nat.to_uint n) post Hpost) as Htake.
  pose proof (read_digits_decimal (Nat.to_uint n) 0 (take_px post)) as Hread.
  pose proof (DecimalNat.Unsigned.of_to n) as Hn. unfold Nat.of_uint in Hn.
  rewrite Hn, read_digits_px in Hread. change (Z.of_nat 0) with 0%Z in Hread.
  destruct (Nat.to_uint n) as [|d|d|d|d|d|d|d|d|d|d]; [contradiction|..];
    cbn [NilEmpty.string_of_uint] in *; rewrite ?append_String in *;
    cbn [first_match];
    match goal with
    | |- context [is_digit ?c] => change (is_digit c) with true
    end; cbv iota; rewrite Htake, ?append_String, Hread; reflexivity.
Qed.

Lemma escape_char_markup (c c' : ascii) : In c markup -> occurs c (escape_char c') = false.
Proof.
  intros Hc. unfold escape_char. simpl in Hc.
  destruct Hc as [<- | [<- | [<- | [<- | [<- | []]]]]];
    repeat match goal with
           | |- context [Ascii.eqb c' ?x] => destruct (Ascii.eqb_spec c' x)
           end;
    try reflexivity;
    cbn [occurs]; rewrite orb_false_r; apply Ascii.eqb_neq; congruence.
Qed.

(** The result of [escapeHTML] holds none of the characters [<], [>], the
    double quote, ['] and [/]. *)
Theorem escapeHTML_safe (str : string) (c : ascii) :
  In c markup -> occurs c (escapeHTML str) = false.
Proof.
  intros Hc. induction str as [|c' str IH]; [reflexivity|].
  cbn [escapeHTML]. now rewrite occurs_app, IH, (escape_char_markup c c' Hc).
Qed.

(** A replacement is never a prefix of another one. *)
Lemma escape_char_prefix (c d : ascii) (s t : string) :
  escape_char c +:+ s = escape_char d +:+ t -> c = d /\ s = t.
Proof.
  unfold escape_char.
  repeat match goal with
         | |- context [Ascii.eqb c ?x] => destruct (Ascii.eqb_spec c x)
         end;
    repeat match goal with
           | |- context [Ascii.eqb d ?x] => destruct (Ascii.eqb_spec d x)
           end;
    rewrite ?append_String, ?append_empty; intros Heq; inversion Heq; subst;
    try contradiction; try discriminate; split; congruence.
Qed.

(** [escapeHTML] loses nothing: two strings with the same escaped form are
    the same string. *)
Theorem escapeHTML_injective (s t : string) : escapeHTML s = escapeHTML t -> s = t.
Proof.
  revert t. induction s as [|c s IH]; intros [|d t] Heq; cbn [escapeHTML] in Heq.
  - reflexivity.
  - exfalso. unfold escape_char in Heq.
    repeat match type of Heq with
           | context [Ascii.eqb d ?x] => destruct (Ascii.eqb d x)
           end; discriminate Heq.
  - exfalso. unfold escape_char in Heq.
    repeat match type of Heq with
           | context [Ascii.eqb c ?x] => destruct (Ascii.eqb c x)
           end; discriminate Heq.
  - destruct (escape_char_prefix c d _ _ Heq) as [-> Hrest]. f_equal. now apply IH.
Qed.

End TextProperties.

(** [intSanitizer('width: -12px solid')] is 12. *)
Lemma intSanitizer_decimal_witness :
  Text.intSanitizer "width: -12px solid" = VNum (Fin 12).
Proof.
  apply (intSanitizer_decimal "width: -" "px solid" 12).
  - lia.
  - intros c Hc. cbn [Text.occurs] in Hc.
    repeat (apply orb_prop in Hc as [Hc | Hc];
            [apply Ascii.eqb_eq in Hc; subst; reflexivity|]).
    discriminate.
  - reflexivity.
Defined.

(** The escaped form of a tag holds no [<]. *)
Lemma escapeHTML_safe_witness :
  Text.occurs "<" (Text.escapeHTML "<a href='/'>Tom & Jerry</a>") = false.
Proof.
  apply (escapeHTML_safe "<a href='/'>Tom & Jerry</a>" "<"). now left.
Defined.

(** Two strings with the escaped form of [a<b]. *)
Lemma escapeHTML_injective_witness : "a<b" = "a<b".
Proof. apply (escapeHTML_injective "a<b" "a<b"). reflexivity. Defined.

(** What [intSanitizer] and [escapeHTML] give on a few strings. *)
Example text_examples :
  Text.intSanitizer "12px" = VNum (Fin 12)
  /\ Text.intSanitizer "1.5" = VNum (Fin 1)
  /\ Text.intSanitizer "-5" = VNum (Fin 5)
  /\ Text.intSanitizer "auto" = VNull
  /\ Text.intSanitizer "9007199254740993" = VNum (Fin 9007199254740992)
  /\ Text.escapeHTML "<b>Tom & Jerry</b>" = "&lt;b&gt;Tom &amp; Jerry&lt;&#x2F;b&gt;".
Proof. repeat split; vm_compute; reflexivity. Qed.

(** ** Arrays *)

Section ArraysProperties.

Import Arrays.

Lemma map_nth_seq {A : Type} (l : list A) (d : A) :
  map (fun i => nth i l d) (seq 0 (length l)) = l.
Proof.
  induction l as [|x l IH]; [reflexivity|].
  cbn [length seq map nth]. f_equal.
  rewrite <- seq_shift, map_map. exact IH.
Qed.

(** On a matrix, that is an array of at least one row whose rows all have
    the same length, and at least one column, [transposeArray] returns a
    matrix with as many rows as there were columns and as many columns as
    there were rows, and transposing that matrix gives the first one back. *)
Theorem transposeArray_involutive (arr : list (list Value)) (columns : nat) :
  arr <> [] ->
  0 < columns ->
  (forall row, In row arr -> length row = columns) ->
  exists transposed,
    transposeArray arr = Returned transposed
    /\ length transposed = columns
    /\ (forall row, In row transposed -> length row = length arr)
    /\ transposeArray transposed = Returned arr.
Proof.
  intros Hne Hcolumns Hrows. destruct arr as [|first rest]; [contradiction|].
  set (arr := first :: rest) in *.
  assert (Hfirst : length first = columns) by (apply Hrows; now left).
  set (transposed := map (fun i => map (fun row => nth i row VUndefined) arr) (seq 0 columns)).
  exists transposed. split; [|split; [|split]].
  - unfold transposeArray, arr. now rewrite Hfirst.
  - unfold transposed. now rewrite length_map, length_seq.
  - intros row Hrow. unfold transposed in Hrow. apply in_map_iff in Hrow as (i & <- & _).
    apply length_map.
  - destruct columns as [|columns]; [lia|].
    unfold transposeArray. unfold transposed at 1. cbn [seq map]. rewrite length_map.
    f_equal. rewrite <- (map_nth_seq arr []) at 2.
    apply map_ext_in. intros j Hj. apply in_seq in Hj.
    unfold transposed. rewrite map_map.
    assert (Hrow : In (nth j arr []) arr) by (apply nth_In; lia).
    rewrite <- (map_nth_seq (nth j arr []) VUndefined) at 1.
    rewrite (Hrows _ Hrow). apply map_ext. intros i.
    rewrite (nth_indep _ VUndefined ((fun row : list Value => nth i row VUndefined) []))
      by (rewrite length_map; lia).
    now rewrite (map_nth (fun row : list Value => nth i row VUndefined)).
Qed.

Lemma num_eqb_sym (a b : num) : num_eqb a b = num_eqb b a.
Proof. destruct a, b; simpl; try reflexivity. apply Z.eqb_sym. Qed.

Lemma object_is_sym (a b : Value) : object_is a b = object_is b a.
Proof.
  destruct a as [| |x|[| |x|]|x|x ?|x ? ?], b as [| |y|[| |y|]|y|y ?|y ? ?];
    simpl; try reflexivity;
    first [apply Z.eqb_sym | apply Nat.eqb_sym | apply String.eqb_sym | now destruct x, y].
Qed.

Lemma set_has_app (set more : list Value) (v : Value) :
  set_has (set ++ more) v = set_has set v || set_has more v.
Proof. unfold set_has. apply existsb_app. Qed.

Lemma set_add_all_app (set l1 l2 : list Value) :
  set_add_all set (l1 ++ l2) = set_add_all (set_add_all set l1) l2.
Proof. revert set. induction l1 as [|v l1 IH]; intros set; [reflexivity | apply IH]. Qed.

Lemma distinct_snoc (set : list Value) (v : Value) :
  distinct set -> set_has set v = false -> distinct (set ++ [v]).
Proof.
  intros Hset Hnew i j x y Hij Hx Hy.
  assert (Hi : i < length set).
  { apply lookup_lt_Some in Hy. rewrite length_app in Hy. simpl in Hy. lia. }
  rewrite lookup_app_l in Hx by exact Hi.
  destruct (decide (j < length set)) as [Hj | Hj].
  - rewrite lookup_app_l in Hy by exact Hj. now apply (Hset i j).
  - rewrite lookup_app_r in Hy by lia.
    destruct (j - length set) as [|k]; [|now destruct k].
    inversion Hy; subst y. rewrite object_is_sym.
    destruct (object_is v x) eqn:Hvx; [|reflexivity].
    unfold set_has in Hnew. assert (Hex : existsb (object_is v) set = true).
    { apply existsb_exists. exists x. split; [|exact Hvx].
      apply list_elem_of_In. now apply list_elem_of_lookup_2 with i. }
    congruence.
Qed.

(** What adding the entries of an array to a set does: the set is
    extended at its end, its entries stay distinct, every entry comes from the
    set or from the array, and every value of the set or of the array is in
    the result. *)
Lemma set_add_all_spec (arr set : list Value) :
  distinct set ->
  (exists more, set_add_all set arr = set ++ more)
  /\ distinct (set_add_all set arr)
  /\ (forall v, In v (set_add_all set arr) -> In v set \/ In v arr)
  /\ (forall v, set_has set v = true \/ In v arr -> set_has (set_add_all set arr) v = true).
Proof.
  revert set. induction arr as [|a arr IH]; intros set Hset.
  - cbn [set_add_all]. repeat split.
    + exists []. now rewrite app_nil_r.
    + exact Hset.
    + now left.
    + now intros v [Hv | []].
  - cbn [set_add_all]. destruct (set_has set a) eqn:Ha.
    + destruct (IH set Hset) as ((more & Hmore) & Hdistinct & Hfrom & Hall).
      repeat split; [now exists more | exact Hdistinct | |].
      * intros v Hv. destruct (Hfrom v Hv); [now left | right; now right].
      * intros v [Hv | [<- | Hv]]; apply Hall; auto.
    + destruct (IH (set ++ [a]) (distinct_snoc set a Hset Ha))
        as ((more & Hmore) & Hdistinct & Hfrom & Hall).
      repeat split; [| exact Hdistinct | |].
      * exists (a :: more). rewrite Hmore, <- app_assoc. reflexivity.
      * intros v Hv. destruct (Hfrom v Hv) as [Hin | Hin]; [|right; now right].
        apply in_app_or in Hin as [Hin | [<- | []]]; [now left | right; now left].
      * intros v Hv. apply Hall. rewrite set_has_app.
        destruct Hv as [-> | [<- | Hv]]; [now left | | now right].
        left. unfold set_has at 2. cbn [existsb]. 
        assert (Hrefl : object_is a a = true).
        { destruct a as [| |x|[| |x|]|x|x ?|x ? ?]; simpl; try reflexivity;
            first [apply Z.eqb_refl | apply Nat.eqb_refl | apply String.eqb_refl | now destruct x]. }
        rewrite Hrefl. simpl. apply orb_true_r.
Qed.

(** [unique] keeps one entry per value, in the order in which the values
    are first seen: its entries differ pairwise (for the comparison of a
    [Set]), each comes from the array, every value of the array is equal to
    one of them, and the result for an array is the beginning of the result
    for any array that continues it. *)
Theorem unique_spec (arr : list Value) :
  (forall i j x y, i < j -> unique arr !! i = Some x -> unique arr !! j = Some y ->
     object_is x y = false)
  /\ (forall v, In v (unique arr) -> In v arr)
  /\ (forall v, In v arr -> set_has (unique arr) v = true)
  /\ (forall more, exists new, unique (arr ++ more) = unique arr ++ new).
Proof.
  assert (Hempty : distinct []) by (intros i j x y _ Hx; discriminate Hx).
  destruct (set_add_all_spec arr [] Hempty) as (_ & Hdistinct & Hfrom & Hall).
  repeat split.
  - exact Hdistinct.
  - intros v Hv. destruct (Hfrom v Hv) as [[] | Hin]. exact Hin.
  - intros v Hv. apply Hall. now right.
  - intros more. unfold unique. rewrite set_add_all_app.
    destruct (set_add_all_spec more (set_add_all [] arr) Hdistinct) as ((new & Hnew) & _).
    now exists new.
Qed.

End ArraysProperties.

(** The transpose of a matrix of two rows and three columns. *)
Lemma transposeArray_involutive_witness :
  exists transposed,
    Arrays.transposeArray
      [[VNum (Fin 1); VNum (Fin 2); VNum (Fin 3)]; [VNum (Fin 4); VNum (Fin 5); VNum (Fin 6)]]
    = Returned transposed
    /\ length transposed = 3
    /\ (forall row, In row transposed -> length row = 2)
    /\ Arrays.transposeArray transposed
       = Returned [[VNum (Fin 1); VNum (Fin 2); VNum (Fin 3)];
                   [VNum (Fin 4); VNum (Fin 5); VNum (Fin 6)]].
Proof.
  apply (transposeArray_involutive
           [[VNum (Fin 1); VNum (Fin 2); VNum (Fin 3)]; [VNum (Fin 4); VNum (Fin 5); VNum (Fin 6)]]
           3).
  - discriminate.
  - lia.
  - intros row [<- | [<- | []]]; reflexivity.
Defined.

(** What [transposeArray] and [unique] give on small arrays. *)
Example arrays_examples :
  Arrays.transposeArray [[VNum (Fin 1); VNum (Fin 2)]; [VNum (Fin 3); VNum (Fin 4)]]
  = Returned [[VNum (Fin 1); VNum (Fin 3)]; [VNum (Fin 2); VNum (Fin 4)]]
  /\ Arrays.transposeArray [] = Thrown NullProperty
  /\ Arrays.unique [VStr "a"; VStr "b"; VStr "a"; VNum NaN; VStr "c"; VNum NaN; VStr "b"]
     = [VStr "a"; VStr "b"; VNum NaN; VStr "c"].
Proof. repeat split. Qed.

(** ** Paths in objects *)

Section PathsProperties.

Variable read : Value -> string -> Value.

Import Paths.

Local Abbreviation walk := (Paths.walk read).
Local Abbreviation getObjProp := (Paths.getObjProp read).

Lemma walk_app (obj : Value) (fields more : list string) :
  nullish obj = false ->
  walk obj (fields ++ more) = getObjProp (walk obj fields) more.
Proof.
  revert obj. induction fields as [|field fields IH]; intros obj Hobj.
  - cbn [app Paths.walk]. unfold Paths.getObjProp. now rewrite Hobj.
  - cbn [app Paths.walk]. destruct (nullish (read obj field)) eqn:Hnext.
    + unfold Paths.getObjProp. now rewrite Hnext.
    + now apply IH.
Qed.

(** Following a path and then another from where the first one ends is
    following the two paths one after the other: [undefined] or [null] met on
    the way is returned at once, in both cases. *)
Theorem getObjProp_app (obj : Value) (fields more : list string) :
  getObjProp (getObjProp obj fields) more = getObjProp obj (fields ++ more).
Proof.
  unfold Paths.getObjProp at 2 3. destruct (nullish obj) eqn:Hobj.
  - unfold Paths.getObjProp. now rewrite Hobj.
  - symmetry. now apply walk_app.
Qed.

End PathsProperties.

(** ** Generated accessors *)

Section AccessorsProperties.

Import Accessors.

Lemma slot_inj (p q : string) : slot p = slot q -> p = q.
Proof. unfold slot. intros Heq. now inversion Heq. Qed.

Lemma slot_other (p : string) : slot p <> p.
Proof.
  unfold slot. intros Heq. apply (f_equal String.length) in Heq.
  change ("_" +:+ p) with (String "_" p) in Heq. cbn [String.length] in Heq. lia.
Qed.

(** What the context holds once the accessors are installed. *)
Lemma generateGetterSetters_lookup (props : list (string * PropInfo))
    (context : gmap string Held) (name : string) :
  NoDup (map fst props) ->
  generateGetterSetters context props !! name
  = match list_find (fun entry => entry.1 = name) props with
    | Some (_, (prop, info)) => Some (Accessor prop info)
    | None => context !! name
    end.
Proof.
  unfold generateGetterSetters. revert context.
  induction props as [|[prop info] props IH]; intros context Hnodup; [reflexivity|].
  cbn [map fst] in Hnodup. apply NoDup_cons in Hnodup as [Hfresh Hnodup].
  cbn [fold_left list_find]. rewrite IH by exact Hnodup.
  cbn [fst]. destruct (decide (prop = name)) as [-> | Hne].
  - destruct (list_find (fun entry => entry.1 = name) props) as [[k [q info']]|] eqn:Hfind.
    + apply list_find_Some in Hfind as (Hk & Hq & _). cbn in Hq. subst q.
      exfalso. apply Hfresh. apply list_elem_of_fmap. exists (name, info').
      split; [reflexivity | now apply list_elem_of_lookup_2 in Hk].
    + cbn. apply lookup_insert_eq.
  - destruct (list_find (fun entry => entry.1 = name) props) as [[k [q info']]|]; cbn;
      [reflexivity | now apply lookup_insert_ne].
Qed.

Lemma generateGetterSetters_installed (props : list (string * PropInfo))
    (context : gmap string Held) (prop : string) (info : PropInfo) :
  NoDup (map fst props) -> In (prop, info) props ->
  generateGetterSetters context props !! prop = Some (Accessor prop info).
Proof.
  intros Hnodup Hin. rewrite generateGetterSetters_lookup by exact Hnodup.
  destruct (list_find (fun entry => entry.1 = prop) props) as [[k [q info']]|] eqn:Hfind.
  - apply list_find_Some in Hfind as (Hk & Hq & _). cbn in Hq. subst q.
    f_equal. f_equal.
    apply list_elem_of_In, list_elem_of_lookup in Hin as [k' Hk'].
    assert (k = k') as ->.
    { apply (NoDup_lookup (map fst props) k k' prop Hnodup).
      - now rewrite list_lookup_fmap, Hk.
      - now rewrite list_lookup_fmap, Hk'. }
    congruence.
  - exfalso. apply list_find_None in Hfind. rewrite Forall_forall in Hfind.
    apply (Hfind (prop, info)); [now apply list_elem_of_In | reflexivity].
Qed.

(** The accessors that [generateGetterSetters] installs, on whatever the
    context held.  A setter call stores the sanitized first argument when the
    type checker lets it in: it returns the context, the getter of the
    property then returns that value, and every other property that has an
    accessor still answers what it answered before, but for the property named
    as the slot is: its accessor is overwritten by the value, and calling it
    throws from then on.  When the type checker refuses the value, nothing
    changes and the call returns what the slot holds, not the context. *)
Theorem generated_setter_then_getter (context : gmap string Held)
    (props : list (string * PropInfo)) (prop : string) (info : PropInfo)
    (first : Value) (rest : list Value) :
  NoDup (map fst props) ->
  In (prop, info) props ->
  let installed := generateGetterSetters context props in
  let value := sanitized info installed first in
  if passes info value then
    exists after,
      call prop (first :: rest) installed = Returned (Context, after)
      /\ call prop [] after = Returned (Got (Data value), after)
      /\ (forall other info', In (other, info') props -> other <> prop -> other <> slot prop ->
            call other [] after = Returned (Got (field installed (slot other)), after)
            /\ call other [] installed
               = Returned (Got (field installed (slot other)), installed))
      /\ (forall params, call (slot prop) params after = Thrown NotAFunction)
  else call prop (first :: rest) installed
       = Returned (Got (field installed (slot prop)), installed).
Proof.
  intros Hnodup Hin installed value.
  assert (Hprop : field installed prop = Accessor prop info).
  { unfold field, installed. now rewrite (generateGetterSetters_installed props context prop info). }
  assert (Hcall : call prop (first :: rest) installed
                  = Returned (if passes info value
                              then (Context, <[slot prop := Data value]> installed)
                              else (Got (field installed (slot prop)), installed))).
  { unfold call. rewrite Hprop. unfold accessor, passes. subst value. unfold sanitized.
    destruct (typeChecker info) as [check|]; [|reflexivity].
    now destruct (truthy (check _)). }
  rewrite Hcall. destruct (passes info value); [|reflexivity].
  exists (<[slot prop := Data value]> installed). split; [reflexivity|].
  assert (Hkept : forall name, name <> slot prop ->
            field (<[slot prop := Data value]> installed) name = field installed name).
  { intros name Hname. unfold field. now rewrite lookup_insert_ne by congruence. }
  assert (Hslot : field (<[slot prop := Data value]> installed) (slot prop) = Data value).
  { unfold field. now rewrite lookup_insert_eq. }
  split; [|split].
  - unfold call. rewrite Hkept, Hprop by (intros Heq; now apply (slot_other prop)).
    cbn [accessor]. now rewrite Hslot.
  - intros other info' Hother Hne Hnslot.
    assert (Hacc : field installed other = Accessor other info').
    { unfold field, installed.
      now rewrite (generateGetterSetters_installed props context other info'). }
    unfold call. rewrite Hkept, Hacc by exact Hnslot. cbn [accessor].
    rewrite Hkept; [split; reflexivity|].
    intros Heq. apply Hne. now apply slot_inj.
  - intros params. unfold call. now rewrite Hslot.
Qed.

End AccessorsProperties.

(** The accessors of [width] and of [_width] on one context: the setter of
    [width] writes the property [_width], which held the other accessor. *)
Lemma generated_setter_then_getter_witness :
  exists after,
    Accessors.call "width" [VNum (Fin 5)]
      (Accessors.generateGetterSetters ∅
         [("width", {| Accessors.typeChecker := None; Accessors.sanitization := None |});
          ("_width", {| Accessors.typeChecker := None; Accessors.sanitization := None |})])
    = Returned (Accessors.Context, after)
    /\ Accessors.call "width" [] after = Returned (Accessors.Got (Accessors.Data (VNum (Fin 5))), after)
    /\ Accessors.call "_width" [] after = Thrown NotAFunction.
Proof.
  destruct (generated_setter_then_getter ∅
              [("width", {| Accessors.typeChecker := None; Accessors.sanitization := None |});
               ("_width", {| Accessors.typeChecker := None; Accessors.sanitization := None |})]
              "width" {| Accessors.typeChecker := None; Accessors.sanitization := None |}
              (VNum (Fin 5)) [])
    as (after & Hset & Hget & _ & Hlost).
  - apply NoDup_ListNoDup. repeat constructor; simpl; intuition discriminate.
  - now left.
  - exists after. split; [exact Hset | split; [exact Hget | apply Hlost]].
Defined.

(** ** Currying *)

Section CurryProperties.

Variable fn : list Value -> Value.
Variable cardinality : nat.

Import Curry.

Local Abbreviation calls := (Curry.calls fn cardinality).

Lemma calls_from (queue : list Value) (batches : list (list Value)) (k : nat)
    (params : list Value) :
  batches !! k = Some params ->
  calls queue batches !! k
  = Some (let queue := queue ++ concat (take (S k) batches) in
          if Nat.leb cardinality (length queue) then Applied (fn queue) else Again).
Proof.
  revert queue k. induction batches as [|batch batches IH]; intros queue k Hk; [discriminate|].
  cbn [Curry.calls]. unfold interFn.
  destruct k as [|k].
  - cbn [take concat]. rewrite app_nil_r.
    now destruct (Nat.leb cardinality (length (queue ++ batch))).
  - assert (Hrest : calls (queue ++ batch) batches !! k
                    = Some (let queue := (queue ++ batch) ++ concat (take (S k) batches) in
                            if Nat.leb cardinality (length queue) then Applied (fn queue)
                            else Again)) by now apply IH.
    cbn zeta in *. rewrite <- app_assoc in Hrest.
    destruct (Nat.leb cardinality (length (queue ++ batch))); exact Hrest.
Qed.

(** A curried function keeps every argument it was ever given: the answer
    to each call is the function applied to the arguments of all the calls so
    far, as soon as there are enough of them, and the curried function itself
    before that.  The queue is never emptied, so that the calls that follow a
    complete one apply the function to more and more arguments. *)
Theorem calls_spec (batches : list (list Value)) (k : nat) (params : list Value) :
  batches !! k = Some params ->
  calls [] batches !! k
  = Some (let queue := concat (take (S k) batches) in
          if Nat.leb cardinality (length queue) then Applied (fn queue) else Again).
Proof. intros Hk. now rewrite (calls_from [] batches k params Hk). Qed.

End CurryProperties.

(** A function of two arguments, curried and called three times with one
    argument: the third call applies it to the three arguments. *)
Lemma calls_spec_witness :
  Curry.calls (fun queue => VArr 0 queue) 2
    [] [[VNum (Fin 1)]; [VNum (Fin 2)]; [VNum (Fin 3)]] !! 2
  = Some (Curry.Applied (VArr 0 [VNum (Fin 1); VNum (Fin 2); VNum (Fin 3)])).
Proof.
  apply (calls_spec (fun queue => VArr 0 queue) 2
           [[VNum (Fin 1)]; [VNum (Fin 2)]; [VNum (Fin 3)]] 2 [VNum (Fin 3)]).
  reflexivity.
Defined.

(** ** Dependency order *)

Section DependenciesProperties.

Import Dependencies.

Variable graph : Graph.

Lemma names_spec (name : string) :
  name ∈ names graph <-> In name (map fst graph) \/ In name (concat (map snd graph)).
Proof.
  unfold names. rewrite elem_of_list_to_set, list_elem_of_In. apply in_app_iff.
Qed.

Lemma size_list_to_set_le (l : list string) : size (list_to_set l : gset string) <= length l.
Proof.
  induction l as [|x l IH]; [now rewrite list_to_set_nil, size_empty|].
  rewrite list_to_set_cons, size_union_alt, size_singleton. cbn [length].
  assert (size (list_to_set l ∖ {[x]} : gset string) <= size (list_to_set l : gset string))
    by (apply subseteq_size; set_solver).
  lia.
Qed.

Lemma size_names : size (names graph) < enough graph.
Proof. unfold names, enough. pose proof (size_list_to_set_le (map fst graph ++ concat (map snd graph))). lia. Qed.

Lemma edges_of_Some (g : Graph) (name : string) (edges : list string) :
  edges_of g name = Some edges ->
  In name (map fst g) /\ forall dep, In dep edges -> In dep (concat (map snd g)).
Proof.
  induction g as [|[key es] g IH]; [discriminate|]. cbn [edges_of map fst snd concat].
  destruct (String.eqb_spec key name) as [-> | _].
  - intros Heq. inversion Heq; subst es. split; [now left|].
    intros dep Hdep. apply in_or_app. now left.
  - intros Hrest. destruct (IH Hrest) as [Hname Hdeps]. split; [now right|].
    intros dep Hdep. apply in_or_app. right. now apply Hdeps.
Qed.

Lemma continues_trans (order order1 : list string) (visited visited1 : gset string)
    (full : bool) (result : Visit) :
  continues graph order visited (Finished full order1 visited1) ->
  continues graph order1 visited1 result ->
  continues graph order visited result.
Proof.
  intros ((more & -> & Hmore) & Hsub). destruct result as [f o v| |]; cbn; [|trivial..].
  intros ((more' & -> & Hmore') & Hsub'). split; [|set_solver].
  exists (more ++ more'). split; [now rewrite app_assoc|].
  intros name Hin. apply in_app_or in Hin as [Hin | Hin]; auto.
Qed.

(** The loop over the edges, when the nested calls behave.  The names of
    the graph that are not visited yet bound the depth of the calls, whatever
    other names are held as visited. *)
Lemma explore_continues (fuel : nat) :
  (forall name order visited,
     name ∈ names graph ->
     size (names graph ∖ ({[name]} ∪ visited)) < fuel ->
     continues graph order visited (visit graph fuel name order visited)) ->
  forall edges order visited,
    (forall dep, In dep edges -> dep ∈ names graph) ->
    size (names graph ∖ visited) <= fuel ->
    continues graph order visited (explore (visit graph fuel) edges order visited).
Proof.
  intros Hvisit. induction edges as [|dep rest IH]; intros order visited Hdeps Hsize.
  - cbn. split; [|reflexivity].
    exists []. split; [now rewrite app_nil_r | intros name []].
  - cbn [explore]. destruct (decide (dep ∈ visited)) as [Hseen | Hnew].
    + apply IH; [|exact Hsize]. intros d Hd. apply Hdeps. now right.
    + assert (Hdep : dep ∈ names graph) by (apply Hdeps; now left).
      assert (Hless : size (names graph ∖ ({[dep]} ∪ visited)) < size (names graph ∖ visited)).
      { apply subset_size. split; [set_solver|].
        intros Hback. assert (dep ∈ names graph ∖ ({[dep]} ∪ visited)) by set_solver.
        set_solver. }
      specialize (Hvisit dep order visited Hdep ltac:(lia)).
      destruct (visit graph fuel dep order visited) as [full order1 visited1|e|];
        [|exact I|contradiction].
      apply (continues_trans order order1 visited visited1 full); [exact Hvisit|].
      destruct Hvisit as (_ & Hgrow).
      apply IH.
      * intros d Hd. apply Hdeps. now right.
      * assert (size (names graph ∖ visited1) <= size (names graph ∖ visited))
          by (apply subseteq_size; set_solver).
        lia.
Qed.

(** A call of [visit] with enough fuel for the names that are left. *)
Lemma visit_continues (fuel : nat) (name : string) (order : list string)
    (visited : gset string) :
  name ∈ names graph ->
  size (names graph ∖ ({[name]} ∪ visited)) < fuel ->
  continues graph order visited (visit graph fuel name order visited).
Proof.
  revert name order visited. induction fuel as [|fuel IH]; intros name order visited Hname Hsize;
    [lia|].
  cbn [visit]. destruct (Nat.eqb (length order) (length graph)).
  - cbn. split; [|reflexivity].
    exists []. split; [now rewrite app_nil_r | intros n []].
  - destruct (edges_of graph name) as [edges|] eqn:Hedges; [|exact I].
    destruct (edges_of_Some graph name edges Hedges) as [Hkey Hdeps].
    pose proof (explore_continues fuel IH edges order ({[name]} ∪ visited)) as Hexplore.
    specialize (Hexplore ltac:(intros dep Hdep; apply names_spec; right; now apply Hdeps)
                         ltac:(lia)).
    destruct (explore (visit graph fuel) edges order ({[name]} ∪ visited))
      as [full order1 visited1|e|]; [|exact I|contradiction].
    destruct Hexplore as ((more & -> & Hmore) & Hgrow).
    cbn. split; [|set_solver].
    exists (more ++ [name]). split; [now rewrite app_assoc|].
    intros n Hn. apply in_app_or in Hn as [Hn | [<- | []]]; auto.
Qed.

(** The loop over the keys. *)
Lemma run_continues (keys order : list string) (visited : gset string) :
  (forall key, In key keys -> In key (map fst graph)) ->
  continues graph order visited (run graph (enough graph) keys order visited).
Proof.
  revert order visited. induction keys as [|key rest IH]; intros order visited Hkeys.
  - cbn. split; [|reflexivity].
    exists []. split; [now rewrite app_nil_r | intros n []].
  - cbn [run].
    assert (Hvisit : continues graph order visited
                       (visit graph (enough graph) key order visited)).
    { apply visit_continues.
      - apply names_spec. left. apply Hkeys. now left.
      - pose proof size_names.
        assert (size (names graph ∖ ({[key]} ∪ visited)) <= size (names graph))
          by (apply subseteq_size; set_solver).
        lia. }
    destruct (visit graph (enough graph) key order visited) as [[|] order1 visited1|e|];
      [exact Hvisit | | exact I | contradiction].
    apply (continues_trans order order1 visited visited1 false); [exact Hvisit|].
    apply IH. intros k Hk. apply Hkeys. now right.
Qed.

(** [getDependencyOrder] ends for every graph, with an array or with an
    error (when it reaches a name that is neither a key nor inherited), and
    whatever names an object inherits; the array holds keys of the graph
    only. *)
Theorem getDependencyOrder_names (inherited : gset string) :
  exists result,
    getDependencyOrder inherited graph = Some result
    /\ forall order, result = Returned order ->
         forall name, In name order -> In name (map fst graph).
Proof.
  unfold getDependencyOrder.
  pose proof (run_continues (map fst graph) [] inherited ltac:(auto)) as Hrun.
  destruct (run graph (enough graph) (map fst graph) [] inherited) as [full order visited|e|];
    [| |contradiction].
  - exists (Returned order). split; [reflexivity|].
    intros order' Heq name Hname. inversion Heq; subst order'.
    destruct Hrun as ((more & -> & Hmore) & _). now apply Hmore.
  - exists (Thrown e). split; [reflexivity|]. discriminate.
Qed.

End DependenciesProperties.

Section DependenciesOrder.

Import Dependencies.

Lemma edges_of_middle (before after : Graph) (key : string) (edges : list string) :
  ~ In key (map fst before) ->
  edges_of (before ++ (key, edges) :: after) key = Some edges.
Proof.
  induction before as [|[k es] before IH]; intros Hfresh.
  - cbn. now rewrite String.eqb_refl.
  - cbn [app edges_of]. destruct (String.eqb_spec k key) as [-> | _].
    + exfalso. apply Hfresh. now left.
    + apply IH. intros Hin. apply Hfresh. now right.
Qed.

Lemma explore_visited (visit1 : string -> list string -> gset string -> Visit)
    (edges order : list string) (visited : gset string) :
  (forall dep, In dep edges -> dep ∈ visited) ->
  explore visit1 edges order visited = Finished false order visited.
Proof.
  induction edges as [|dep rest IH]; intros Hseen; [reflexivity|].
  cbn [explore]. destruct (decide (dep ∈ visited)) as [_ | Hnew].
  - apply IH. intros d Hd. apply Hseen. now right.
  - exfalso. apply Hnew, Hseen. now left.
Qed.

Lemma run_in_order (inherited : gset string) (graph : Graph) (fuel : nat) :
  NoDup (map fst graph) ->
  in_order graph ->
  forall after before,
    graph = before ++ after ->
    run graph (S fuel) (map fst after) (map fst before)
      (list_to_set (map fst before) ∪ inherited)
    = Finished false (map fst graph) (list_to_set (map fst graph) ∪ inherited).
Proof.
  intros Hnodup Horder. induction after as [|[key edges] after IH]; intros before Hgraph.
  - rewrite app_nil_r in Hgraph. now subst before.
  - cbn [map fst run visit].
    assert (Hlen : Nat.eqb (length (map fst before)) (length graph) = false).
    { apply Nat.eqb_neq. rewrite Hgraph, length_map, length_app. cbn [length]. lia. }
    rewrite Hlen.
    assert (Hfresh : ~ In key (map fst before)).
    { rewrite Hgraph, map_app in Hnodup. apply NoDup_app in Hnodup as (_ & Hapart & _).
      intros Hin. apply list_elem_of_In in Hin. apply (Hapart key Hin). cbn. left. }
    rewrite Hgraph at 1. rewrite (edges_of_middle before after key edges Hfresh).
    rewrite explore_visited.
    + replace ({[key]} ∪ (list_to_set (map fst before) ∪ inherited) : gset string)
        with (list_to_set (map fst (before ++ [(key, edges)])) ∪ inherited : gset string).
      * replace (map fst before ++ [key]) with (map fst (before ++ [(key, edges)]))
          by now rewrite map_app.
        apply IH. now rewrite <- app_assoc.
      * rewrite map_app, list_to_set_app_L. cbn. set_solver.
    + intros dep Hdep. apply elem_of_union_r, elem_of_union_l, elem_of_list_to_set, list_elem_of_In.
      now apply (Horder before key edges after Hgraph).
Qed.

(** One call of [visit] that goes past its first test. *)
Lemma visit_step (graph : Graph) (fuel : nat) (name : string) (order : list string)
    (visited : gset string) (edges : list string) :
  length order < length graph ->
  edges_of graph name = Some edges ->
  visit graph (S fuel) name order visited
  = match explore (visit graph fuel) edges order ({[name]} ∪ visited) with
    | Finished _ order visited => Finished false (order ++ [name]) visited
    | other => other
    end.
Proof.
  intros Hlen Hedges. cbn [visit]. rewrite Hedges.
  destruct (Nat.eqb_spec (length order) (length graph)); [lia | reflexivity].
Qed.

(** On a graph whose keys are distinct and already in dependency order,
    [getDependencyOrder] returns the keys as they are, whatever names an
    object inherits. *)
Theorem getDependencyOrder_in_order (inherited : gset string) (graph : Graph) :
  NoDup (map fst graph) ->
  in_order graph ->
  getDependencyOrder inherited graph = Some (Returned (map fst graph)).
Proof.
  intros Hnodup Horder. unfold getDependencyOrder, enough.
  change (@nil string) with (map fst (@nil (string * list string))) at 1.
  replace inherited
    with (list_to_set (map fst (@nil (string * list string))) ∪ inherited : gset string)
    by (cbn; set_solver).
  now rewrite (run_in_order inherited graph _ Hnodup Horder graph []).
Qed.

(** A key that is visited as a dependency is visited again when the loop
    over the keys comes to it, and pushed again unless the order is complete
    by then: with a first key that depends on the second, itself without
    dependencies and not the name of an inherited property, and more keys
    after them, the second key comes twice in the order that is returned. *)
Theorem getDependencyOrder_twice (inherited : gset string) (graph rest : Graph)
    (first second : string) :
  graph = (first, [second]) :: (second, []) :: rest ->
  rest <> [] ->
  first <> second ->
  second ∉ inherited ->
  exists result,
    getDependencyOrder inherited graph = Some result
    /\ forall order, result = Returned order ->
         exists more, order = [second; first; second] ++ more.
Proof.
  intros Hgraph Hrest Hne Hown.
  assert (Hlen : exists n, length graph = S (S (S n))).
  { rewrite Hgraph. destruct rest; [contradiction|]. cbn. now eexists. }
  destruct Hlen as [n Hlen].
  assert (Hfuel : exists fuel, enough graph = S (S fuel)).
  { unfold enough. rewrite length_app, length_map, Hlen. now eexists. }
  destruct Hfuel as [fuel Hfuel].
  assert (Hfirst : edges_of graph first = Some [second]).
  { rewrite Hgraph. cbn. now rewrite String.eqb_refl. }
  assert (Hsecond : edges_of graph second = Some []).
  { rewrite Hgraph. cbn. destruct (String.eqb_spec first second); [contradiction|].
    now rewrite String.eqb_refl. }
  assert (Hshort : forall order : list string, length order < 3 -> length order < length graph)
    by (intros order Horder; lia).
  assert (Hstart : run graph (enough graph) (map fst graph) [] inherited
                   = run graph (enough graph) (map fst rest) [second; first; second]
                       ({[second]} ∪ ({[second]} ∪ ({[first]} ∪ inherited)))).
  { assert (Hkeys : map fst graph = first :: second :: map fst rest) by now rewrite Hgraph.
    rewrite Hkeys, Hfuel. cbn [run].
    rewrite (visit_step graph (S fuel) first [] inherited [second]) by (auto; cbn; lia).
    cbn [explore]. destruct (decide (second ∈ ({[first]} ∪ inherited : gset string))) as [Hin | _];
      [set_solver|].
    rewrite (visit_step graph fuel second [] ({[first]} ∪ inherited) []) by (auto; cbn; lia).
    cbn [explore app].
    rewrite (visit_step graph (S fuel) second [second; first] _ []) by (auto; cbn; lia).
    reflexivity. }
  unfold getDependencyOrder. rewrite Hstart.
  pose proof (run_continues graph (map fst rest) [second; first; second]
                ({[second]} ∪ ({[second]} ∪ ({[first]} ∪ inherited)))) as Hrun.
  assert (Hkeys : forall key, In key (map fst rest) -> In key (map fst graph)).
  { intros key Hkey. rewrite Hgraph. cbn. auto. }
  specialize (Hrun Hkeys).
  destruct (run graph (enough graph) (map fst rest) _ _) as [full order visited|e|];
    [| |contradiction].
  - exists (Returned order). split; [reflexivity|].
    intros order' Heq. inversion Heq; subst order'.
    destruct Hrun as ((more & -> & _) & _). now exists more.
  - exists (Thrown e). split; [reflexivity|]. discriminate.
Qed.

End DependenciesOrder.

(** A graph of three keys in dependency order. *)
Lemma getDependencyOrder_in_order_witness :
  Dependencies.getDependencyOrder Dependencies.object_prototype
    [("data", []); ("domain", ["data"]); ("axes", ["domain"; "data"])]
  = Some (Returned ["data"; "domain"; "axes"]).
Proof.
  apply (getDependencyOrder_in_order Dependencies.object_prototype
           [("data", []); ("domain", ["data"]); ("axes", ["domain"; "data"])]).
  - apply NoDup_ListNoDup. repeat constructor; simpl; intuition discriminate.
  - intros before key edges after Hgraph dep Hdep.
    repeat (destruct before as [|? before]; simplify_eq/=; try tauto).
Defined.

(** The graph [{ b: ['c'], c: [], a: [] }]: the key [c] comes twice and
    the key [a] is missing. *)
Lemma getDependencyOrder_twice_witness :
  exists result,
    Dependencies.getDependencyOrder Dependencies.object_prototype
      [("b", ["c"]); ("c", []); ("a", [])] = Some result
    /\ forall order, result = Returned order -> exists more, order = ["c"; "b"; "c"] ++ more.
Proof.
  apply (getDependencyOrder_twice Dependencies.object_prototype
           [("b", ["c"]); ("c", []); ("a", [])] [("a", [])] "b" "c").
  - reflexivity.
  - discriminate.
  - discriminate.
  - vm_compute. discriminate.
Defined.

(** What [getDependencyOrder] answers on a few graphs.  A dependency that
    bears the name of an inherited property passes for visited: it is
    skipped, be it a key of the graph or not. *)
Example getDependencyOrder_examples :
  Dependencies.getDependencyOrder Dependencies.object_prototype
    [("b", ["c"]); ("c", []); ("a", [])]
  = Some (Returned ["c"; "b"; "c"])
  /\ Dependencies.getDependencyOrder Dependencies.object_prototype [("a", ["b"]); ("b", [])]
     = Some (Returned ["b"; "a"])
  /\ Dependencies.getDependencyOrder Dependencies.object_prototype [("a", ["b"])]
     = Some (Thrown NullProperty)
  /\ Dependencies.getDependencyOrder Dependencies.object_prototype
       [("a", ["toString"]); ("b", [])]
     = Some (Returned ["a"; "b"])
  /\ Dependencies.getDependencyOrder Dependencies.object_prototype
       [("a", ["toString"]); ("toString", []); ("b", [])]
     = Some (Returned ["a"; "toString"; "b"]).
Proof. repeat split; vm_compute; reflexivity. Qed.
